(** * Integrated Track Monitoring System: Pico firmware

    A shallow embedding of [pico_firmware/main.c]: the quadrature decoder and
    camera-trigger synchroniser that run in the GPIO interrupt handler, the
    rate-limited velocity estimator, and the sampling loop that copies the
    shared motion state into a telemetry sample, reads the inertial sensor
    and writes one record to the serial port.

    Conventions.
    - C integers are [Z] values kept in the range of their type; every
      arithmetic result is brought back into range by the conversions of
      [CInt] (two's complement for the signed types, as on the target).
    - Hardware reads (the microsecond clock, GPIO levels, I2C payloads) are
      inputs of the function that performs them.
    - Hardware writes and lock operations are appended, oldest first, to the
      [trace] component of the firmware state. *)

From Stdlib Require Import String Ascii DecimalString.
From Stdlib Require Import ZArith List Bool Lia Sorted SpecFloat.
Import ListNotations.
Local Open Scope Z_scope.

(** ** Fixed-width C integers *)

Module CInt.

Definition u32 (z : Z) : Z := z mod 2 ^ 32.
Definition u64 (z : Z) : Z := z mod 2 ^ 64.
Definition s16 (z : Z) : Z := (z + 2 ^ 15) mod 2 ^ 16 - 2 ^ 15.
Definition s32 (z : Z) : Z := (z + 2 ^ 31) mod 2 ^ 32 - 2 ^ 31.

Definition in_u32 (z : Z) : Prop := 0 <= z < 2 ^ 32.
Definition in_u64 (z : Z) : Prop := 0 <= z < 2 ^ 64.
Definition in_s32 (z : Z) : Prop := - 2 ^ 31 <= z < 2 ^ 31.

End CInt.
Import CInt.

(** ** Binary32 and binary64 values ([float], [double]) *)

Module Flt.

Definition f32_prec : Z := 24.
Definition f32_emax : Z := 128.
Definition f64_prec : Z := 53.
Definition f64_emax : Z := 1024.

Definition f32_zero : spec_float := S754_zero false.
Definition f32_of_int (z : Z) : spec_float :=
  binary_normalize f32_prec f32_emax z 0 false.
Definition f32_mul := SFmul f32_prec f32_emax.
Definition f32_add := SFadd f32_prec f32_emax.
Definition f32_div := SFdiv f32_prec f32_emax.

(** The literals [2048.0f], [16.384f] and [0.1f]: the binary32 values
    nearest to the decimal constants. *)
Definition lit_2048 : spec_float := f32_of_int 2048.
Definition lit_16_384 : spec_float := f32_div (f32_of_int 16384) (f32_of_int 1000).
Definition lit_0_1 : spec_float := f32_div (f32_of_int 1) (f32_of_int 10).

(** Promotion of a [float] to [double] (exact). *)
Definition f64_of_f32 (x : spec_float) : spec_float :=
  match x with
  | S754_finite s m e =>
      binary_normalize f64_prec f64_emax (cond_Zopp s (Zpos m)) e s
  | other => other
  end.
Definition f64_sqrt := SFsqrt f64_prec f64_emax.

End Flt.

(** ** Configuration constants *)

Definition ENCODER_A_PIN : Z := 16.
Definition ENCODER_B_PIN : Z := 17.
Definition ENCODER_INDEX_PIN : Z := 18.
Definition CAMERA_TRIGGER_PIN : Z := 22.
Definition STATUS_LED_PIN : Z := 2.
Definition ERROR_LED_PIN : Z := 3.

Definition IMU_I2C_ADDR : Z := 0x68.
Definition IMU_WHO_AM_I : Z := 0x75.
Definition IMU_ACCEL_XOUT_H : Z := 0x3B.

Definition IMU_SAMPLE_RATE_HZ : Z := 1000.
Definition ENCODER_TRIGGER_INTERVAL : Z := 100.

(** ** Data structures *)

Record sensor_data_t : Type := mk_sensor_data {
  timestamp_us : Z;
  encoder_position : Z;
  encoder_velocity : Z;
  accel_x : spec_float; accel_y : spec_float; accel_z : spec_float;
  gyro_x : spec_float; gyro_y : spec_float; gyro_z : spec_float;
  sample_trigger_count : Z;   (* the field camera_trigger_count; the global
                                 of that name keeps it below *)
  system_status : Z
}.

Record encoder_state_t : Type := mk_encoder_state {
  position : Z;
  velocity : Z;
  pulse_count : Z;
  last_pulse_time : Z;
  index_detected : bool
}.

Inductive mutex : Type := data_mutex | uart_mutex.

(** What is handed to [uart_puts]: a fixed text, or the three arguments that
    [snprintf] renders into the JSON telemetry line. *)
Inductive uart_text : Type :=
| ImuFailedMsg
| TelemetryJson (chainage : spec_float) (timestamp : Z) (value : spec_float).

Inductive event : Type :=
| MutexEnter (m : mutex)
| MutexExit (m : mutex)
| GpioPut (pin : Z) (level : bool)
| SleepUs (us : Z)
| I2cWrite (addr : Z) (bytes : list Z) (nostop : bool)
| I2cRead (addr : Z) (len : Z) (nostop : bool)
| UartPuts (text : uart_text).

(** The globals of the translation unit, the function-local statics, and the
    trace of effects. *)
Record firmware : Type := mk_firmware {
  encoder_state : encoder_state_t;
  current_data : sensor_data_t;
  system_initialized : bool;
  camera_trigger_count : Z;
  system_start_time : Z;
  last_velocity_update : Z;   (* static in update_encoder_velocity *)
  last_position : Z;          (* static in update_encoder_velocity *)
  led_state : bool;           (* static in status_led_toggle *)
  last_imu_read : Z;          (* static in data_acquisition_loop *)
  last_status_update : Z;     (* static in data_acquisition_loop *)
  trace : list event
}.

(** Field updates. *)

Definition set_position (v : Z) (e : encoder_state_t) : encoder_state_t :=
  mk_encoder_state v (velocity e) (pulse_count e) (last_pulse_time e)
                   (index_detected e).
Definition set_velocity (v : Z) (e : encoder_state_t) : encoder_state_t :=
  mk_encoder_state (position e) v (pulse_count e) (last_pulse_time e)
                   (index_detected e).
Definition set_pulse_count (v : Z) (e : encoder_state_t) : encoder_state_t :=
  mk_encoder_state (position e) (velocity e) v (last_pulse_time e)
                   (index_detected e).
Definition set_last_pulse_time (v : Z) (e : encoder_state_t) : encoder_state_t :=
  mk_encoder_state (position e) (velocity e) (pulse_count e) v
                   (index_detected e).
Definition set_index_detected (v : bool) (e : encoder_state_t) : encoder_state_t :=
  mk_encoder_state (position e) (velocity e) (pulse_count e)
                   (last_pulse_time e) v.

Definition with_encoder (f : encoder_state_t -> encoder_state_t)
    (fw : firmware) : firmware :=
  mk_firmware (f (encoder_state fw)) (current_data fw) (system_initialized fw)
    (camera_trigger_count fw) (system_start_time fw) (last_velocity_update fw)
    (last_position fw) (led_state fw) (last_imu_read fw)
    (last_status_update fw) (trace fw).
Definition with_current_data (f : sensor_data_t -> sensor_data_t)
    (fw : firmware) : firmware :=
  mk_firmware (encoder_state fw) (f (current_data fw)) (system_initialized fw)
    (camera_trigger_count fw) (system_start_time fw) (last_velocity_update fw)
    (last_position fw) (led_state fw) (last_imu_read fw)
    (last_status_update fw) (trace fw).
Definition set_camera_trigger_count (v : Z) (fw : firmware) : firmware :=
  mk_firmware (encoder_state fw) (current_data fw) (system_initialized fw)
    v (system_start_time fw) (last_velocity_update fw)
    (last_position fw) (led_state fw) (last_imu_read fw)
    (last_status_update fw) (trace fw).
Definition set_velocity_statics (upd pos : Z) (fw : firmware) : firmware :=
  mk_firmware (encoder_state fw) (current_data fw) (system_initialized fw)
    (camera_trigger_count fw) (system_start_time fw) upd pos
    (led_state fw) (last_imu_read fw) (last_status_update fw) (trace fw).
Definition set_led_state (v : bool) (fw : firmware) : firmware :=
  mk_firmware (encoder_state fw) (current_data fw) (system_initialized fw)
    (camera_trigger_count fw) (system_start_time fw) (last_velocity_update fw)
    (last_position fw) v (last_imu_read fw) (last_status_update fw) (trace fw).
Definition set_last_imu_read (v : Z) (fw : firmware) : firmware :=
  mk_firmware (encoder_state fw) (current_data fw) (system_initialized fw)
    (camera_trigger_count fw) (system_start_time fw) (last_velocity_update fw)
    (last_position fw) (led_state fw) v (last_status_update fw) (trace fw).
Definition set_last_status_update (v : Z) (fw : firmware) : firmware :=
  mk_firmware (encoder_state fw) (current_data fw) (system_initialized fw)
    (camera_trigger_count fw) (system_start_time fw) (last_velocity_update fw)
    (last_position fw) (led_state fw) (last_imu_read fw) v (trace fw).
Definition emit (evs : list event) (fw : firmware) : firmware :=
  mk_firmware (encoder_state fw) (current_data fw) (system_initialized fw)
    (camera_trigger_count fw) (system_start_time fw) (last_velocity_update fw)
    (last_position fw) (led_state fw) (last_imu_read fw)
    (last_status_update fw) (trace fw ++ evs).

(** The image of the zero-initialised globals and statics at reset. *)
Definition zero_sensor_data : sensor_data_t :=
  mk_sensor_data 0 0 0 Flt.f32_zero Flt.f32_zero Flt.f32_zero
                 Flt.f32_zero Flt.f32_zero Flt.f32_zero 0 0.
Definition reset_image : firmware :=
  mk_firmware (mk_encoder_state 0 0 0 0 false) zero_sensor_data false
              0 0 0 0 false 0 0 [].

(** ** The interrupt side: decoder, trigger synchroniser, velocity estimator *)

Module Encoder.

(** [encoder_init]: the two [gpio_set_irq_enabled_with_callback] calls
    register [encoder_irq_handler] for pins 16 and 18; the state part
    follows.  [now] is the value returned by [get_timestamp_us]. *)
Definition encoder_init (now : Z) (fw : firmware) : firmware :=
  with_encoder (fun _ => mk_encoder_state 0 0 0 now false) fw.

(** [camera_trigger]: a 100 microsecond pulse on the trigger pin. *)
Definition camera_trigger (fw : firmware) : firmware :=
  emit [GpioPut CAMERA_TRIGGER_PIN true; SleepUs 100;
        GpioPut CAMERA_TRIGGER_PIN false] fw.

(** The condition of the outer [if] of [update_encoder_velocity]:
    [current_time - last_velocity_update >= 10000] on [uint64_t]. *)
Definition rate_limit_elapsed (now : Z) (fw : firmware) : bool :=
  10000 <=? u64 (now - last_velocity_update fw).

(** [time_diff = current_time - last_velocity_update] on [uint64_t]. *)
Definition time_diff (now : Z) (fw : firmware) : Z :=
  u64 (now - last_velocity_update fw).

(** [position_diff = encoder_state.position - last_position] on [int32_t]. *)
Definition position_diff (fw : firmware) : Z :=
  s32 (position (encoder_state fw) - last_position fw).

(** The expression [(position_diff * 1000000) / time_diff] stored into an
    [int32_t]: the product is an [int] product; for the division by a
    [uint64_t] it is converted to [uint64_t]; the unsigned quotient is
    converted back to [int32_t] by the assignment. *)
Definition velocity_expr (pdiff tdiff : Z) : Z :=
  s32 (u64 (s32 (pdiff * 1000000)) / tdiff).

Definition update_encoder_velocity (now : Z) (fw : firmware) : firmware :=
  let current_time := now in
  if rate_limit_elapsed current_time fw then
    let pdiff := position_diff fw in
    let tdiff := time_diff current_time fw in
    let fw1 :=
      if 0 <? tdiff
      then with_encoder (set_velocity (velocity_expr pdiff tdiff)) fw
      else fw in
    set_velocity_statics current_time (position (encoder_state fw1)) fw1
  else fw.

(** What one invocation of the handler reads from the hardware: the clock
    at entry, the levels of phase B and phase A, and the clock read by
    [update_encoder_velocity]. *)
Record irq_inputs : Type := mk_irq_inputs {
  irq_time : Z;
  level_b : bool;
  level_a : bool;
  vel_time : Z
}.

Definition encoder_irq_handler (gpio events : Z) (hw : irq_inputs)
    (fw : firmware) : firmware :=
  if gpio =? ENCODER_A_PIN then
    let current_time := irq_time hw in
    let b_state := level_b hw in
    let a_state := level_a hw in
    let fw :=
      if Bool.eqb a_state b_state
      then with_encoder
             (fun e => set_position (s32 (position e + 1)) e) fw
      else with_encoder
             (fun e => set_position (s32 (position e - 1)) e) fw in
    let fw :=
      with_encoder (fun e => set_pulse_count (u32 (pulse_count e + 1)) e) fw in
    let fw := with_encoder (set_last_pulse_time current_time) fw in
    let fw :=
      if pulse_count (encoder_state fw) mod ENCODER_TRIGGER_INTERVAL =? 0
      then let fw := camera_trigger fw in
           set_camera_trigger_count (u32 (camera_trigger_count fw + 1)) fw
      else fw in
    update_encoder_velocity (vel_time hw) fw
  else if gpio =? ENCODER_INDEX_PIN then
    with_encoder (set_index_detected true) fw
  else fw.

(** An interrupt request as delivered to the callback. *)
Record irq : Type := mk_irq {
  irq_gpio : Z;
  irq_events : Z;
  irq_hw : irq_inputs
}.

Definition serve (q : irq) (fw : firmware) : firmware :=
  encoder_irq_handler (irq_gpio q) (irq_events q) (irq_hw q) fw.

(** A run of interrupt requests, served in order. *)
Fixpoint serve_all (qs : list irq) (fw : firmware) : firmware :=
  match qs with
  | [] => fw
  | q :: qs' => serve_all qs' (serve q fw)
  end.

(** A phase-A edge (rising or falling, as told by [events]) and an edge
    of the index channel, with the readings taken while they are served. *)
Definition edge_a (events : Z) (hw : irq_inputs) : irq :=
  mk_irq ENCODER_A_PIN events hw.
Definition edge_index (events : Z) (hw : irq_inputs) : irq :=
  mk_irq ENCODER_INDEX_PIN events hw.

Definition GPIO_IRQ_EDGE_FALL : Z := 4.
Definition GPIO_IRQ_EDGE_RISE : Z := 8.

End Encoder.
Import Encoder.


(** ** The main-loop side: inertial sensor, telemetry, sampling loop *)

Module Sampler.

(** [imu_read_data]: one register-address write, one 14-byte read, then
    the conversion of the big-endian 16-bit words.  [buffer] is what the
    bus read returned. *)
Definition raw16 (buffer : list Z) (i : nat) : Z :=
  s16 (Z.lor (Z.shiftl (nth i buffer 0) 8) (nth (S i) buffer 0)).

Definition imu_read_data (buffer : list Z) (fw : firmware) : firmware :=
  let fw := emit [I2cWrite IMU_I2C_ADDR [IMU_ACCEL_XOUT_H] true;
                  I2cRead IMU_I2C_ADDR 14 false] fw in
  let acc i := Flt.f32_div (Flt.f32_of_int (raw16 buffer i)) Flt.lit_2048 in
  let gyr i := Flt.f32_div (Flt.f32_of_int (raw16 buffer i)) Flt.lit_16_384 in
  with_current_data
    (fun d => mk_sensor_data (timestamp_us d) (encoder_position d)
                (encoder_velocity d)
                (acc 0%nat) (acc 2%nat) (acc 4%nat)
                (gyr 8%nat) (gyr 10%nat) (gyr 12%nat)
                (sample_trigger_count d) (system_status d)) fw.

(** The two numeric arguments of the format string in [send_data_uart]. *)
Definition chainage_arg (d : sensor_data_t) : spec_float :=
  Flt.f64_of_f32 (Flt.f32_mul (Flt.f32_of_int (encoder_position d)) Flt.lit_0_1).

Definition value_arg (d : sensor_data_t) : spec_float :=
  Flt.f64_sqrt
    (Flt.f64_of_f32
       (Flt.f32_add
          (Flt.f32_add (Flt.f32_mul (accel_x d) (accel_x d))
                       (Flt.f32_mul (accel_y d) (accel_y d)))
          (Flt.f32_mul (accel_z d) (accel_z d)))).

Definition send_data_uart (fw : firmware) : firmware :=
  let d := current_data fw in
  emit [MutexEnter uart_mutex;
        UartPuts (TelemetryJson (chainage_arg d) (timestamp_us d) (value_arg d));
        MutexExit uart_mutex] fw.

Definition status_led_toggle (fw : firmware) : firmware :=
  let fw := set_led_state (negb (led_state fw)) fw in
  emit [GpioPut STATUS_LED_PIN (led_state fw)] fw.

(** [imu_self_test] followed by the branch of [system_health_check];
    [who] is the byte returned by the identity-register read. *)
Definition system_health_check (who : Z) (fw : firmware) : firmware :=
  let fw := emit [I2cWrite IMU_I2C_ADDR [IMU_WHO_AM_I] true;
                  I2cRead IMU_I2C_ADDR 1 false] fw in
  let imu_ok := who =? 0x71 in
  if negb imu_ok
  then emit [GpioPut ERROR_LED_PIN true; MutexEnter uart_mutex;
             UartPuts ImuFailedMsg; MutexExit uart_mutex] fw
  else emit [GpioPut ERROR_LED_PIN false] fw.

(** What one pass of the loop body reads from the hardware. *)
Record loop_inputs : Type := mk_loop_inputs {
  loop_time : Z;
  imu_buffer : list Z;
  who_am_i : Z
}.

(** The statements of the sampling branch, lines 420 to 433, one
    constructor per statement. *)
Inductive stmt : Type :=
| LockData            (* mutex_enter_blocking(&data_mutex) *)
| StampTime           (* current_data.timestamp_us = current_time *)
| CopyPosition        (* current_data.encoder_position = encoder_state.position *)
| CopyVelocity        (* current_data.encoder_velocity = encoder_state.velocity *)
| CopyTriggerCount    (* current_data.camera_trigger_count = camera_trigger_count *)
| CopyStatus          (* current_data.system_status = system_initialized ? 1 : 0 *)
| ReadImu             (* imu_read_data(&current_data) *)
| SendUart            (* send_data_uart(&current_data) *)
| UnlockData          (* mutex_exit(&data_mutex) *)
| MarkSampled.        (* last_imu_read = current_time *)

Definition sampling_branch : list stmt :=
  [LockData; StampTime; CopyPosition; CopyVelocity; CopyTriggerCount;
   CopyStatus; ReadImu; SendUart; UnlockData; MarkSampled].

Definition exec_stmt (hw : loop_inputs) (st : stmt) (fw : firmware)
    : firmware :=
  match st with
  | LockData => emit [MutexEnter data_mutex] fw
  | StampTime =>
      with_current_data
        (fun d => mk_sensor_data (loop_time hw) (encoder_position d)
                    (encoder_velocity d) (accel_x d) (accel_y d) (accel_z d)
                    (gyro_x d) (gyro_y d) (gyro_z d)
                    (sample_trigger_count d) (system_status d)) fw
  | CopyPosition =>
      with_current_data
        (fun d => mk_sensor_data (timestamp_us d)
                    (position (encoder_state fw))
                    (encoder_velocity d) (accel_x d) (accel_y d) (accel_z d)
                    (gyro_x d) (gyro_y d) (gyro_z d)
                    (sample_trigger_count d) (system_status d)) fw
  | CopyVelocity =>
      with_current_data
        (fun d => mk_sensor_data (timestamp_us d) (encoder_position d)
                    (velocity (encoder_state fw))
                    (accel_x d) (accel_y d) (accel_z d)
                    (gyro_x d) (gyro_y d) (gyro_z d)
                    (sample_trigger_count d) (system_status d)) fw
  | CopyTriggerCount =>
      with_current_data
        (fun d => mk_sensor_data (timestamp_us d) (encoder_position d)
                    (encoder_velocity d) (accel_x d) (accel_y d) (accel_z d)
                    (gyro_x d) (gyro_y d) (gyro_z d)
                    (camera_trigger_count fw) (system_status d)) fw
  | CopyStatus =>
      with_current_data
        (fun d => mk_sensor_data (timestamp_us d) (encoder_position d)
                    (encoder_velocity d) (accel_x d) (accel_y d) (accel_z d)
                    (gyro_x d) (gyro_y d) (gyro_z d)
                    (sample_trigger_count d)
                    (if system_initialized fw then 1 else 0)) fw
  | ReadImu => imu_read_data (imu_buffer hw) fw
  | SendUart => send_data_uart fw
  | UnlockData => emit [MutexExit data_mutex] fw
  | MarkSampled => set_last_imu_read (loop_time hw) fw
  end.

(** The statements run back to back, with no interrupt served in between. *)
Fixpoint run_stmts (hw : loop_inputs) (sts : list stmt) (fw : firmware)
    : firmware :=
  match sts with
  | [] => fw
  | st :: sts' => run_stmts hw sts' (exec_stmt hw st fw)
  end.

Definition sample_due (hw : loop_inputs) (fw : firmware) : bool :=
  1000000 / IMU_SAMPLE_RATE_HZ <=? u64 (loop_time hw - last_imu_read fw).

(** One pass of the body of [while (true)] in [data_acquisition_loop]. *)
Definition loop_body (hw : loop_inputs) (fw : firmware) : firmware :=
  let current_time := loop_time hw in
  let fw := if sample_due hw fw then run_stmts hw sampling_branch fw else fw in
  let fw :=
    if 1000000 <=? u64 (current_time - last_status_update fw)
    then set_last_status_update current_time (status_led_toggle fw)
    else fw in
  let fw :=
    if current_time mod 10000000 =? 0
    then system_health_check (who_am_i hw) fw
    else fw in
  emit [SleepUs 100] fw.

(** *** Preemption

    The GPIO interrupt is enabled for the whole life of the loop:
    [encoder_irq_handler] takes no lock and nothing in the loop masks
    interrupts, so the handler may run, to completion, between any two
    statements of the sampling branch.  A schedule gives, for each
    statement in turn, the requests served just before it. *)
Definition schedule : Type := list (list irq).

Fixpoint run_preempted (hw : loop_inputs) (sched : schedule)
    (sts : list stmt) (fw : firmware) : firmware :=
  match sts with
  | [] => fw
  | st :: sts' =>
      run_preempted hw (tl sched) sts'
        (exec_stmt hw st (serve_all (hd [] sched) fw))
  end.

(** The motion state as it stands at one instant, and the same three
    values as they appear in a telemetry sample. *)
Definition motion_at (fw : firmware) : Z * Z * Z :=
  (position (encoder_state fw), velocity (encoder_state fw),
   camera_trigger_count fw).

Definition motion_in_sample (d : sensor_data_t) : Z * Z * Z :=
  (encoder_position d, encoder_velocity d, sample_trigger_count d).

(** The motion state at every interrupt boundary of a preempted run: at
    its start and after each request served. *)
Fixpoint boundaries_of (qs : list irq) (fw : firmware) : list (Z * Z * Z) :=
  match qs with
  | [] => []
  | q :: qs' => motion_at (serve q fw) :: boundaries_of qs' (serve q fw)
  end.

Fixpoint boundaries_from (hw : loop_inputs) (sched : schedule)
    (sts : list stmt) (fw : firmware) : list (Z * Z * Z) :=
  match sts with
  | [] => []
  | st :: sts' =>
      boundaries_of (hd [] sched) fw ++
      boundaries_from hw (tl sched) sts'
        (exec_stmt hw st (serve_all (hd [] sched) fw))
  end.

Definition boundaries (hw : loop_inputs) (sched : schedule)
    (sts : list stmt) (fw : firmware) : list (Z * Z * Z) :=
  motion_at fw :: boundaries_from hw sched sts fw.

(** *** Locks held around I/O

    Replaying a trace while tracking which locks are held gives, for each
    bus or serial transfer, the locks held while it ran. *)
Record lockset : Type := mk_lockset { data_held : bool; uart_held : bool }.

Definition no_locks : lockset := mk_lockset false false.

Definition is_transfer (e : event) : bool :=
  match e with
  | I2cWrite _ _ _ | I2cRead _ _ _ | UartPuts _ => true
  | _ => false
  end.

Definition after_event (h : lockset) (e : event) : lockset :=
  match e with
  | MutexEnter data_mutex => mk_lockset true (uart_held h)
  | MutexExit data_mutex => mk_lockset false (uart_held h)
  | MutexEnter uart_mutex => mk_lockset (data_held h) true
  | MutexExit uart_mutex => mk_lockset (data_held h) false
  | _ => h
  end.

Fixpoint transfers_with_locks (h : lockset) (tr : list event)
    : list (event * lockset) :=
  match tr with
  | [] => []
  | e :: tr' =>
      (if is_transfer e then [(e, h)] else []) ++
      transfers_with_locks (after_event h e) tr'
  end.

End Sampler.
Import Sampler.

(** ** Runs and what is observed of them *)

Module Runs.

(** A sequence of phase-A edges, each given by its event mask and the
    readings taken while it is served. *)
Definition phase_a_edges (es : list (Z * irq_inputs)) : list irq :=
  map (fun e => edge_a (fst e) (snd e)) es.

(** The direction sampled at an edge: [+1] when the two phase levels
    match, [-1] when they differ. *)
Definition direction (hw : irq_inputs) : Z :=
  if Bool.eqb (level_a hw) (level_b hw) then 1 else -1.

(** The net displacement sampled over a sequence of edges. *)
Fixpoint net_direction (es : list (Z * irq_inputs)) : Z :=
  match es with
  | [] => 0
  | e :: es' => direction (snd e) + net_direction es'
  end.

(** The number of trigger pulses raised on the camera pin in a trace. *)
Fixpoint trigger_pulses (tr : list event) : nat :=
  match tr with
  | [] => 0
  | GpioPut pin true :: tr' =>
      ((if (pin =? CAMERA_TRIGGER_PIN)%Z then 1 else 0) + trigger_pulses tr')%nat
  | _ :: tr' => trigger_pulses tr'
  end.

(** The (1-based, starting at [k]) ranks of the requests of a run during
    which the camera pin was pulsed. *)
Fixpoint firing_edges (k : nat) (qs : list irq) (fw : firmware) : list nat :=
  match qs with
  | [] => []
  | q :: qs' =>
      let fw' := serve q fw in
      (if (trigger_pulses (trace fw) <? trigger_pulses (trace fw'))%nat
       then [k] else []) ++ firing_edges (S k) qs' fw'
  end.

(** The ranks (starting at [k]) at which a pulse counter that starts at
    [pc] reaches a multiple of the trigger interval during [n]
    increments. *)
Fixpoint cadence (k n : nat) (pc : Z) : list nat :=
  match n with
  | O => []
  | S n' =>
      (if u32 (pc + 1) mod ENCODER_TRIGGER_INTERVAL =? 0 then [k] else []) ++
      cadence (S k) n' (u32 (pc + 1))
  end.

(** Whether serving [q] in state [fw] reaches the assignment to
    [encoder_state.velocity]: a phase-A edge for which both conditions of
    [update_encoder_velocity] hold. *)
Definition estimates (q : irq) (fw : firmware) : bool :=
  (irq_gpio q =? ENCODER_A_PIN) &&
  rate_limit_elapsed (vel_time (irq_hw q)) fw &&
  (0 <? time_diff (vel_time (irq_hw q)) fw).

(** The number of velocity estimates made during a run. *)
Fixpoint velocity_updates (qs : list irq) (fw : firmware) : nat :=
  match qs with
  | [] => 0
  | q :: qs' =>
      ((if estimates q fw then 1 else 0) + velocity_updates qs' (serve q fw))%nat
  end.

(** The clock readings of the estimator over a run of edges. *)
Definition estimator_clock (es : list (Z * irq_inputs)) : list Z :=
  map (fun e => vel_time (snd e)) es.

(** Readings that never go back and lie within less than [w] microseconds
    of each other. *)
Definition within (w : Z) (ts : list Z) : Prop :=
  StronglySorted (fun a b => 0 <= b - a < w) ts.


(** The path condition of the skip branch of the divide-by-zero guard:
    the rate limit has let the call through and [time_diff > 0] fails. *)
Definition guard_skips (now : Z) (fw : firmware) : bool :=
  rate_limit_elapsed now fw && negb (0 <? time_diff now fw).

(** The number of phase-A requests in a run. *)
Fixpoint phase_a_count (qs : list irq) : nat :=
  match qs with
  | [] => 0
  | q :: qs' =>
      ((if (irq_gpio q =? ENCODER_A_PIN)%Z then 1 else 0) + phase_a_count qs')%nat
  end.

(** An execution at the grain of whole handler invocations and whole
    passes of the loop body. *)
Inductive activity : Type :=
| Interrupt (q : irq)
| LoopPass (hw : loop_inputs).

Definition perform (a : activity) (fw : firmware) : firmware :=
  match a with
  | Interrupt q => serve q fw
  | LoopPass hw => loop_body hw fw
  end.

Fixpoint execute (acts : list activity) (fw : firmware) : firmware :=
  match acts with
  | [] => fw
  | a :: acts' => execute acts' (perform a fw)
  end.

Fixpoint interrupts_of (acts : list activity) : list irq :=
  match acts with
  | [] => []
  | Interrupt q :: acts' => q :: interrupts_of acts'
  | LoopPass _ :: acts' => interrupts_of acts'
  end.

(** The events a computation appended to the trace. *)
Definition events_since (fw fw' : firmware) : list event :=
  skipn (length (trace fw)) (trace fw').

(** The state after [encoder_init] at time [now], coming out of reset. *)
Definition booted (now : Z) : firmware := encoder_init now reset_image.

(** The bus and serial transfers of one pass of the loop body, each with the
    locks held while it ran; no lock is held when a pass begins. *)
Definition transfers_of_pass (hw : loop_inputs) (fw : firmware)
    : list (event * lockset) :=
  transfers_with_locks no_locks (events_since fw (loop_body hw fw)).

(** The events of the sampling branch, given the text sent. *)
Definition sampling_events (text : uart_text) : list event :=
  [MutexEnter data_mutex;
   I2cWrite IMU_I2C_ADDR [IMU_ACCEL_XOUT_H] true;
   I2cRead IMU_I2C_ADDR 14 false;
   MutexEnter uart_mutex;
   UartPuts text;
   MutexExit uart_mutex;
   MutexExit data_mutex].

(** A state reached by 99 forward edges after initialisation, the 100th
    edge, and a schedule that serves it between the copy of the position
    and the copy of the velocity. *)
Definition before_hundredth : firmware :=
  serve_all
    (phase_a_edges
       (repeat (GPIO_IRQ_EDGE_RISE, mk_irq_inputs 300000 true true 300001) 99))
    (booted 250000).

Definition hundredth_edge : irq :=
  edge_a GPIO_IRQ_EDGE_FALL (mk_irq_inputs 400000 false false 400001).

Definition edge_after_position_copy : schedule :=
  [[]; []; []; [hundredth_edge]].

Definition quiet_imu (now : Z) : loop_inputs :=
  mk_loop_inputs now (repeat 0 14) 0x71.

(** Six edges in the reverse direction, the first at 300 ms after reset
    (which makes an estimate and records position -1), the sixth 10 ms
    later: the estimator sees a position difference of -5 over 10000
    microseconds. *)
Definition reverse_run : list (Z * irq_inputs) :=
  [(GPIO_IRQ_EDGE_RISE, mk_irq_inputs 300000 false true 300001);
   (GPIO_IRQ_EDGE_FALL, mk_irq_inputs 302000 true false 302001);
   (GPIO_IRQ_EDGE_RISE, mk_irq_inputs 304000 false true 304001);
   (GPIO_IRQ_EDGE_FALL, mk_irq_inputs 306000 true false 306001);
   (GPIO_IRQ_EDGE_RISE, mk_irq_inputs 308000 false true 308001)].

Definition reverse_sixth : irq :=
  edge_a GPIO_IRQ_EDGE_FALL (mk_irq_inputs 310000 true false 310001).

End Runs.
Import Runs.

(** ** Further observations of traces and runs *)

Module Observe.

(** The [n] consecutive integers from [start] up. *)
Fixpoint zrange (n : nat) (start : Z) : list Z :=
  match n with
  | O => []
  | S n' => start :: zrange n' (start + 1)
  end.

(** The locks held once a trace has been replayed from [h]. *)
Definition locks_after (h : lockset) (tr : list event) : lockset :=
  fold_left after_event tr h.

(** A serial write found with the serial lock held; other transfers pass. *)
Definition serial_guarded (p : event * lockset) : Prop :=
  match fst p with
  | UartPuts _ => uart_held (snd p) = true
  | _ => True
  end.

(** The level last written to [pin] in a trace, if it was written at all. *)
Definition pin_write (pin : Z) (acc : option bool) (e : event) : option bool :=
  match e with
  | GpioPut p level => if p =? pin then Some level else acc
  | _ => acc
  end.

Definition pin_level (pin : Z) (tr : list event) : option bool :=
  fold_left (pin_write pin) tr None.

(** The timestamps of the telemetry lines of a trace, oldest first. *)
Fixpoint telemetry_stamps (tr : list event) : list Z :=
  match tr with
  | [] => []
  | UartPuts (TelemetryJson _ ts _) :: tr' => ts :: telemetry_stamps tr'
  | _ :: tr' => telemetry_stamps tr'
  end.

(** The events a handler invocation may leave: the trigger pulse on the
    camera pin and its 100 microsecond hold. *)
Definition trigger_event (e : event) : bool :=
  match e with
  | GpioPut pin _ => pin =? CAMERA_TRIGGER_PIN
  | SleepUs us => us =? 100
  | _ => false
  end.

(** The clock readings of the loop passes of an execution. *)
Fixpoint loop_clock (acts : list activity) : list Z :=
  match acts with
  | [] => []
  | LoopPass hw :: acts' => loop_time hw :: loop_clock acts'
  | Interrupt _ :: acts' => loop_clock acts'
  end.

(** The net displacement sampled by the phase-A requests of a run. *)
Fixpoint net_motion (qs : list irq) : Z :=
  match qs with
  | [] => 0
  | q :: qs' =>
      (if irq_gpio q =? ENCODER_A_PIN then direction (irq_hw q) else 0)
      + net_motion qs'
  end.

(** Whether a run holds a request from the index pin. *)
Definition index_requested (qs : list irq) : bool :=
  existsb (fun q => irq_gpio q =? ENCODER_INDEX_PIN) qs.

(** The big-endian bytes of a 16-bit two's complement value, as the sensor
    puts them on the bus. *)
Definition be16 (v : Z) : list Z := [(v mod 2 ^ 16) / 2 ^ 8; v mod 2 ^ 8].

Definition in_s16 (z : Z) : Prop := - 2 ^ 15 <= z < 2 ^ 15.

(** The value of a finite float times [2 ^ k], when that is an integer. *)
Definition scaled (k : Z) (x : spec_float) : option Z :=
  match x with
  | S754_zero _ => Some 0
  | S754_finite s m e =>
      let v := cond_Zopp s (Zpos m) in
      if 0 <=? e + k then Some (v * 2 ^ (e + k))
      else if v mod 2 ^ (- (e + k)) =? 0 then Some (v / 2 ^ (- (e + k)))
      else None
  | _ => None
  end.

(** All 16-bit two's complement values. *)
Definition all_s16 : list Z := zrange (Z.to_nat (2 ^ 16)) (- 2 ^ 15).

(** The accelerometer scaling of [imu_read_data] on one raw word. *)
Definition accel_of_raw (raw : Z) : spec_float :=
  Flt.f32_div (Flt.f32_of_int raw) Flt.lit_2048.

(** Whether the scaled word is exactly [raw / 2048]. *)
Definition accel_exact_b (raw : Z) : bool :=
  match scaled 11 (accel_of_raw raw) with
  | Some v => v =? raw
  | None => false
  end.

(** The state in which the three copies of the sampling branch run when
    the requests [s0], [s1] and [s2] are served before the lock, the time
    stamp and the first copy. *)
Definition state_at_copy (hw : loop_inputs) (s0 s1 s2 : list irq)
    (fw : firmware) : firmware :=
  serve_all s2 (run_preempted hw [s0; s1] [LockData; StampTime] fw).

(** The state in which [send_data_uart] runs: the branch up to and
    including the sensor read. *)
Definition sampled (hw : loop_inputs) (fw : firmware) : firmware :=
  run_stmts hw [LockData; StampTime; CopyPosition; CopyVelocity;
                CopyTriggerCount; CopyStatus; ReadImu] fw.

(** Readings at least 10000 microseconds apart, in order. *)
Definition sparse (ts : list Z) : Prop :=
  StronglySorted (fun a b => 10000 <= b - a) ts.

(** Non-decreasing readings. *)
Definition monotone (ts : list Z) : Prop := StronglySorted Z.le ts.

(** A run with one interrupt on each pin between loop passes at 1000,
    1500 and 2100 microseconds. *)
Definition three_passes : list activity :=
  [LoopPass (quiet_imu 1000);
   Interrupt (edge_a GPIO_IRQ_EDGE_RISE (mk_irq_inputs 1200 true true 1201));
   LoopPass (quiet_imu 1500);
   Interrupt (edge_index GPIO_IRQ_EDGE_RISE (mk_irq_inputs 1700 true true 1701));
   LoopPass (quiet_imu 2100)].

(** The levels written to [pin] in a trace, oldest first. *)
Fixpoint pin_writes (pin : Z) (tr : list event) : list bool :=
  match tr with
  | [] => []
  | GpioPut p level :: tr' =>
      (if p =? pin then [level] else []) ++ pin_writes pin tr'
  | _ :: tr' => pin_writes pin tr'
  end.

(** [n] levels that alternate, the first being [b]. *)
Fixpoint alternating (b : bool) (n : nat) : list bool :=
  match n with
  | O => []
  | S n' => b :: alternating (negb b) n'
  end.

(** A finite float as an exact fraction with a power of two below. *)
Definition as_fraction (x : spec_float) : option (Z * Z) :=
  match x with
  | S754_zero _ => Some (0, 1)
  | S754_finite s m e =>
      if 0 <=? e then Some (cond_Zopp s (Zpos m) * 2 ^ e, 1)
      else Some (cond_Zopp s (Zpos m), 2 ^ (- e))
  | _ => None
  end.

(** A sample holding only a position. *)
Definition sample_at (pos : Z) : sensor_data_t :=
  mk_sensor_data 0 pos 0 Flt.f32_zero Flt.f32_zero Flt.f32_zero
                 Flt.f32_zero Flt.f32_zero Flt.f32_zero 0 0.

(** Whether the chainage argument for [pos] is less than 0.005 away from
    [pos / 10]: with the argument [n / d], whether
    [|200 n - 20 pos d| < d]. *)
Definition chainage_close_b (pos : Z) : bool :=
  match as_fraction (chainage_arg (sample_at pos)) with
  | Some (n, d) => (0 <? d) && (Z.abs (200 * n - 20 * pos * d) <? d)
  | None => false
  end.

(** The positions within 100000 pulses of the origin. *)
Definition near_positions : list Z := zrange (Z.to_nat 200001) (- 100000).

(** The statements that copy a field of the motion state. *)
Definition copies (st : stmt) : bool :=
  match st with
  | CopyPosition | CopyVelocity | CopyTriggerCount => true
  | _ => false
  end.

(** Successive stamps at least 1000 microseconds apart. *)
Definition spaced (ts : list Z) : Prop :=
  StronglySorted (fun a b => 1000 <= b - a) ts.

(** The statements of a branch, each with the locks held when it runs:
    the locks are those left by the events of the statements before it. *)
Fixpoint stmts_with_locks (hw : loop_inputs) (h : lockset) (sts : list stmt)
    (fw : firmware) : list (stmt * lockset) :=
  match sts with
  | [] => []
  | st :: sts' =>
      (st, h) ::
      stmts_with_locks hw
        (locks_after h (events_since fw (exec_stmt hw st fw))) sts'
        (exec_stmt hw st fw)
  end.

(** Whether serving [q] in state [fw] leaves the marks of an estimate:
    the estimator's clock reading in [last_velocity_update], the new
    position in [last_position], and in [velocity] the value of the
    source expression for the displacement and the time since the
    previous estimate. *)
Definition stores_estimate (q : irq) (fw : firmware) : bool :=
  let fw' := serve q fw in
  (last_velocity_update fw' =? vel_time (irq_hw q)) &&
  (last_position fw' =? position (encoder_state fw')) &&
  (velocity (encoder_state fw') =?
     velocity_expr
       (s32 (position (encoder_state fw') - last_position fw))
       (u64 (vel_time (irq_hw q) - last_velocity_update fw))).

(** The number of requests of a run that leave the marks of an estimate. *)
Fixpoint estimates_stored (qs : list irq) (fw : firmware) : nat :=
  match qs with
  | [] => 0
  | q :: qs' =>
      ((if stores_estimate q fw then 1 else 0)
       + estimates_stored qs' (serve q fw))%nat
  end.

(** The telemetry lines handed to the serial port in a trace, oldest
    first, each with its three arguments. *)
Fixpoint telemetry_lines (tr : list event) : list uart_text :=
  match tr with
  | [] => []
  | UartPuts (TelemetryJson c ts v) :: tr' =>
      TelemetryJson c ts v :: telemetry_lines tr'
  | _ :: tr' => telemetry_lines tr'
  end.

End Observe.
Import Observe.

(** ** The text of a telemetry line *)

Module Wire.













End Wire.
Import Wire.

(** * Properties *)

(** ** Facts about the integer conversions *)

Section CIntFacts.

Lemma u32_small z : in_u32 z -> u32 z = z.
Proof. unfold in_u32, u32; intros; apply Z.mod_small; lia. Qed.

Lemma u64_small z : in_u64 z -> u64 z = z.
Proof. unfold in_u64, u64; intros; apply Z.mod_small; lia. Qed.

Lemma s32_small z : in_s32 z -> s32 z = z.
Proof.
  unfold in_s32, s32; intros.
  rewrite Z.mod_small; lia.
Qed.

Lemma u32_range z : in_u32 (u32 z).
Proof. unfold in_u32, u32; apply Z.mod_pos_bound; lia. Qed.

Lemma u64_range z : in_u64 (u64 z).
Proof. unfold in_u64, u64; apply Z.mod_pos_bound; lia. Qed.

Lemma s32_range z : in_s32 (s32 z).
Proof.
  unfold in_s32, s32.
  pose proof (Z.mod_pos_bound (z + 2 ^ 31) (2 ^ 32)); lia.
Qed.

Lemma s32_s32_add a b : s32 (s32 a + b) = s32 (a + b).
Proof.
  unfold s32.
  replace (a + b + 2 ^ 31) with (a + 2 ^ 31 + b) by lia.
  replace ((a + 2 ^ 31) mod 2 ^ 32 - 2 ^ 31 + b + 2 ^ 31)
    with ((a + 2 ^ 31) mod 2 ^ 32 + b) by lia.
  now rewrite Zplus_mod_idemp_l.
Qed.

Lemma u32_u32_add a b : u32 (u32 a + b) = u32 (a + b).
Proof. unfold u32; apply Zplus_mod_idemp_l. Qed.

(** Unsigned subtraction of a later reading from an earlier one is exact
    when the gap fits the type. *)
Lemma u64_gap a b : 0 <= b - a < 2 ^ 64 -> u64 (b - a) = b - a.
Proof. intros; apply u64_small; exact H. Qed.

End CIntFacts.

(** ** The handler, field by field *)

Section HandlerFacts.

Lemma update_velocity_frame now fw :
  let fw' := update_encoder_velocity now fw in
  position (encoder_state fw') = position (encoder_state fw) /\
  pulse_count (encoder_state fw') = pulse_count (encoder_state fw) /\
  last_pulse_time (encoder_state fw') = last_pulse_time (encoder_state fw) /\
  index_detected (encoder_state fw') = index_detected (encoder_state fw) /\
  camera_trigger_count fw' = camera_trigger_count fw /\
  trace fw' = trace fw.
Proof.
  unfold update_encoder_velocity.
  destruct (rate_limit_elapsed now fw); [ | repeat split ].
  destruct (0 <? time_diff now fw); repeat split.
Qed.

Variables (events : Z) (hw : irq_inputs) (fw : firmware).

Let fw' := serve (edge_a events hw) fw.

Lemma edge_a_position :
  position (encoder_state fw') =
  s32 (position (encoder_state fw) + direction hw).
Proof.
  unfold fw', serve, edge_a, encoder_irq_handler, direction; cbn.
  match goal with
  | |- context [update_encoder_velocity ?n ?f] =>
      destruct (update_velocity_frame n f) as (-> & _)
  end.
  destruct (Bool.eqb (level_a hw) (level_b hw));
    destruct (_ =? 0); reflexivity.
Qed.

Lemma edge_a_pulse_count :
  pulse_count (encoder_state fw') = u32 (pulse_count (encoder_state fw) + 1).
Proof.
  unfold fw', serve, edge_a, encoder_irq_handler; cbn.
  match goal with
  | |- context [update_encoder_velocity ?n ?f] =>
      destruct (update_velocity_frame n f) as (_ & -> & _)
  end.
  destruct (Bool.eqb (level_a hw) (level_b hw));
    destruct (_ =? 0); reflexivity.
Qed.

Lemma edge_a_last_pulse_time :
  last_pulse_time (encoder_state fw') = irq_time hw.
Proof.
  unfold fw', serve, edge_a, encoder_irq_handler; cbn.
  match goal with
  | |- context [update_encoder_velocity ?n ?f] =>
      destruct (update_velocity_frame n f) as (_ & _ & -> & _)
  end.
  destruct (Bool.eqb (level_a hw) (level_b hw));
    destruct (_ =? 0); reflexivity.
Qed.

Lemma edge_a_trigger_count :
  camera_trigger_count fw' =
  if u32 (pulse_count (encoder_state fw) + 1) mod ENCODER_TRIGGER_INTERVAL =? 0
  then u32 (camera_trigger_count fw + 1)
  else camera_trigger_count fw.
Proof.
  unfold fw', serve, edge_a, encoder_irq_handler; cbn.
  match goal with
  | |- context [update_encoder_velocity ?n ?f] =>
      destruct (update_velocity_frame n f) as (_ & _ & _ & _ & -> & _)
  end.
  destruct (Bool.eqb (level_a hw) (level_b hw)); cbn;
    destruct (_ =? 0); reflexivity.
Qed.

Lemma edge_a_trace :
  trace fw' =
  trace fw ++
  (if u32 (pulse_count (encoder_state fw) + 1) mod ENCODER_TRIGGER_INTERVAL =? 0
   then [GpioPut CAMERA_TRIGGER_PIN true; SleepUs 100;
         GpioPut CAMERA_TRIGGER_PIN false]
   else []).
Proof.
  unfold fw', serve, edge_a, encoder_irq_handler; cbn.
  match goal with
  | |- context [update_encoder_velocity ?n ?f] =>
      destruct (update_velocity_frame n f) as (_ & _ & _ & _ & _ & ->)
  end.
  destruct (Bool.eqb (level_a hw) (level_b hw)); cbn;
    destruct (_ =? 0); cbn; try reflexivity; now rewrite app_nil_r.
Qed.

End HandlerFacts.

(** ** Sequences of edges add up *)

Section SequenceFacts.

Lemma edge_a_fields_in_range events hw fw :
  in_s32 (position (encoder_state (serve (edge_a events hw) fw))) /\
  in_u32 (pulse_count (encoder_state (serve (edge_a events hw) fw))).
Proof.
  rewrite edge_a_position, edge_a_pulse_count.
  split; [ apply s32_range | apply u32_range ].
Qed.

(** Over a whole sequence the position is the start position plus the net
    displacement, and the pulse counter the start count plus the number of
    edges, each brought back into its type. *)
Lemma edges_accumulate es : forall fw,
  in_s32 (position (encoder_state fw)) ->
  in_u32 (pulse_count (encoder_state fw)) ->
  position (encoder_state (serve_all (phase_a_edges es) fw)) =
    s32 (position (encoder_state fw) + net_direction es) /\
  pulse_count (encoder_state (serve_all (phase_a_edges es) fw)) =
    u32 (pulse_count (encoder_state fw) + Z.of_nat (length es)).
Proof.
  induction es as [ | [ev hw] es IH]; intros fw Hpos Hpc.
  - cbn. rewrite !Z.add_0_r.
    split; [ now rewrite s32_small | now rewrite u32_small ].
  - unfold phase_a_edges. cbn [map serve_all fst snd net_direction length].
    fold (phase_a_edges es).
    destruct (edge_a_fields_in_range ev hw fw) as [Hpos' Hpc'].
    destruct (IH _ Hpos' Hpc') as [-> ->].
    rewrite edge_a_position, edge_a_pulse_count.
    rewrite s32_s32_add, u32_u32_add. split; f_equal; lia.
Qed.

End SequenceFacts.

(** ** Requests on other pins, and the loop body, leave the counters alone *)

Section FrameFacts.

Lemma serve_not_a q fw :
  irq_gpio q <> ENCODER_A_PIN ->
  pulse_count (encoder_state (serve q fw)) = pulse_count (encoder_state fw) /\
  position (encoder_state (serve q fw)) = position (encoder_state fw) /\
  camera_trigger_count (serve q fw) = camera_trigger_count fw /\
  trace (serve q fw) = trace fw.
Proof.
  intros Hpin. unfold serve, encoder_irq_handler.
  destruct (Z.eqb_spec (irq_gpio q) ENCODER_A_PIN) as [E | _]; [ contradiction | ].
  destruct (irq_gpio q =? ENCODER_INDEX_PIN); repeat split.
Qed.

Lemma serve_is_edge_a q fw :
  irq_gpio q = ENCODER_A_PIN ->
  serve q fw = serve (edge_a (irq_events q) (irq_hw q)) fw.
Proof. intros E. unfold serve, edge_a; cbn. now rewrite E. Qed.

Lemma exec_stmt_motion hw st fw :
  encoder_state (exec_stmt hw st fw) = encoder_state fw /\
  camera_trigger_count (exec_stmt hw st fw) = camera_trigger_count fw.
Proof. destruct st; split; reflexivity. Qed.

Lemma run_stmts_motion hw sts : forall fw,
  encoder_state (run_stmts hw sts fw) = encoder_state fw /\
  camera_trigger_count (run_stmts hw sts fw) = camera_trigger_count fw.
Proof.
  induction sts as [ | st sts IH]; intros fw; cbn [run_stmts].
  - split; reflexivity.
  - destruct (IH (exec_stmt hw st fw)) as [-> ->]. apply exec_stmt_motion.
Qed.

Lemma loop_body_motion hw fw :
  encoder_state (loop_body hw fw) = encoder_state fw /\
  camera_trigger_count (loop_body hw fw) = camera_trigger_count fw.
Proof.
  unfold loop_body.
  set (fw1 := if sample_due hw fw then _ else fw).
  assert (H1 : encoder_state fw1 = encoder_state fw /\
               camera_trigger_count fw1 = camera_trigger_count fw).
  { subst fw1. destruct (sample_due hw fw); [ apply run_stmts_motion | now split ]. }
  destruct H1 as [<- <-].
  destruct (1000000 <=? _); destruct (_ =? 0);
    unfold system_health_check; try destruct (negb _); split; reflexivity.
Qed.

End FrameFacts.

(** ** The trigger counter follows the pulse counter *)

Section CadenceFacts.

Lemma div_100_step pc :
  0 <= pc ->
  (pc + 1) / 100 = if (pc + 1) mod 100 =? 0 then pc / 100 + 1 else pc / 100.
Proof.
  intros Hpc. destruct (Z.eqb_spec ((pc + 1) mod 100) 0) as [E | E];
    Z.div_mod_to_equations; lia.
Qed.

(** One request keeps [trigger count = pulse count / 100] as long as the
    pulse counter does not wrap. *)
Lemma serve_keeps_cadence q fw :
  0 <= pulse_count (encoder_state fw) ->
  pulse_count (encoder_state fw)
    + Z.of_nat (phase_a_count [q]) < 2 ^ 32 ->
  camera_trigger_count fw = pulse_count (encoder_state fw) / 100 ->
  pulse_count (encoder_state (serve q fw)) =
    pulse_count (encoder_state fw) + Z.of_nat (phase_a_count [q]) /\
  camera_trigger_count (serve q fw) =
    pulse_count (encoder_state (serve q fw)) / 100.
Proof.
  intros Hlo Hhi Hinv. cbn [phase_a_count] in *.
  destruct (Z.eqb_spec (irq_gpio q) ENCODER_A_PIN) as [E | E].
  - rewrite (serve_is_edge_a _ _ E).
    rewrite edge_a_pulse_count, edge_a_trigger_count.
    rewrite (u32_small (pulse_count (encoder_state fw) + 1))
      by (unfold in_u32; lia).
    split; [ lia | ].
    rewrite (div_100_step _ Hlo). unfold ENCODER_TRIGGER_INTERVAL.
    destruct (_ =? 0); [ | exact Hinv ].
    rewrite Hinv. apply u32_small. unfold in_u32.
    Z.div_mod_to_equations; lia.
  - destruct (serve_not_a q fw E) as (-> & _ & -> & _).
    split; [ lia | exact Hinv ].
Qed.

Lemma serve_all_keeps_cadence qs : forall fw,
  0 <= pulse_count (encoder_state fw) ->
  pulse_count (encoder_state fw) + Z.of_nat (phase_a_count qs) < 2 ^ 32 ->
  camera_trigger_count fw = pulse_count (encoder_state fw) / 100 ->
  pulse_count (encoder_state (serve_all qs fw)) =
    pulse_count (encoder_state fw) + Z.of_nat (phase_a_count qs) /\
  camera_trigger_count (serve_all qs fw) =
    pulse_count (encoder_state (serve_all qs fw)) / 100.
Proof.
  induction qs as [ | q qs IH]; intros fw Hlo Hhi Hinv.
  - cbn. split; [ lia | exact Hinv ].
  - cbn [serve_all].
    assert (Hq : Z.of_nat (phase_a_count (q :: qs)) =
                 Z.of_nat (phase_a_count [q]) + Z.of_nat (phase_a_count qs)).
    { cbn [phase_a_count]. lia. }
    destruct (serve_keeps_cadence q fw Hlo) as [Hpc Hctc];
      [ lia | exact Hinv | ].
    destruct (IH (serve q fw)) as [Hpc' Hctc']; [ lia | lia | exact Hctc | ].
    split; [ lia | exact Hctc' ].
Qed.

Lemma phase_a_count_edges es :
  phase_a_count (phase_a_edges es) = length es.
Proof.
  induction es as [ | e es IH]; [ reflexivity | ].
  unfold phase_a_edges in *. cbn [map phase_a_count edge_a irq_gpio].
  now rewrite IH, Z.eqb_refl.
Qed.

Lemma trigger_pulses_app tr1 tr2 :
  trigger_pulses (tr1 ++ tr2) = (trigger_pulses tr1 + trigger_pulses tr2)%nat.
Proof.
  induction tr1 as [ | e tr1 IH]; [ reflexivity | ].
  destruct e as [ | | pin [ | ] | | | | ]; cbn; rewrite IH; lia.
Qed.

End CadenceFacts.

Section ExecutionFacts.

Lemma firing_edges_cadence es : forall k fw,
  firing_edges k (phase_a_edges es) fw =
  cadence k (length es) (pulse_count (encoder_state fw)).
Proof.
  induction es as [ | e es IH]; intros k fw; [ reflexivity | ].
  unfold phase_a_edges. cbn [map firing_edges length cadence].
  fold (phase_a_edges es). rewrite IH, edge_a_pulse_count.
  f_equal. rewrite edge_a_trace, trigger_pulses_app.
  destruct (_ =? 0); cbn [trigger_pulses].
  - replace (CAMERA_TRIGGER_PIN =? CAMERA_TRIGGER_PIN) with true by reflexivity.
    destruct (Nat.ltb_spec (trigger_pulses (trace fw))
                (trigger_pulses (trace fw) + (1 + 0))); [ reflexivity | lia ].
  - destruct (Nat.ltb_spec (trigger_pulses (trace fw))
                (trigger_pulses (trace fw) + 0)); [ lia | reflexivity ].
Qed.

Lemma execute_keeps_cadence acts : forall fw,
  0 <= pulse_count (encoder_state fw) ->
  pulse_count (encoder_state fw)
    + Z.of_nat (phase_a_count (interrupts_of acts)) < 2 ^ 32 ->
  camera_trigger_count fw = pulse_count (encoder_state fw) / 100 ->
  pulse_count (encoder_state (execute acts fw)) =
    pulse_count (encoder_state fw)
    + Z.of_nat (phase_a_count (interrupts_of acts)) /\
  camera_trigger_count (execute acts fw) =
    pulse_count (encoder_state (execute acts fw)) / 100.
Proof.
  induction acts as [ | [q | hw] acts IH]; intros fw Hlo Hhi Hinv.
  - cbn. split; [ lia | exact Hinv ].
  - cbn [execute perform interrupts_of] in *.
    assert (Hq : Z.of_nat (phase_a_count (q :: interrupts_of acts)) =
                 Z.of_nat (phase_a_count [q])
                 + Z.of_nat (phase_a_count (interrupts_of acts))).
    { cbn [phase_a_count]. lia. }
    destruct (serve_keeps_cadence q fw Hlo) as [Hpc Hctc];
      [ lia | exact Hinv | ].
    destruct (IH (serve q fw)) as [Hpc' Hctc']; [ lia | lia | exact Hctc | ].
    split; [ lia | exact Hctc' ].
  - cbn [execute perform interrupts_of] in *.
    destruct (loop_body_motion hw fw) as [He Hc].
    destruct (IH (loop_body hw fw)) as [Hpc' Hctc'].
    + now rewrite He.
    + now rewrite He.
    + now rewrite He, Hc.
    + rewrite He in Hpc'. split; [ exact Hpc' | exact Hctc' ].
Qed.

End ExecutionFacts.

(** ** The quadrature decoder *)

(** C4. At every phase-A edge of every sequence of such edges, rising or
    falling, the position moves by exactly one: up when the sampled levels
    of phase A and phase B match, down when they differ; the pulse counter
    is incremented (modulo 2^32) and the time of the last pulse becomes the
    clock reading of this invocation, whatever the levels are.  The
    position is taken strictly inside the [int32_t] range, where the C
    increment and decrement are defined. *)
Theorem quadrature_edge_step
    (pre : list (Z * irq_inputs)) (events : Z) (hw : irq_inputs)
    (fw0 : firmware) :
  let fw := serve_all (phase_a_edges pre) fw0 in
  let fw' := serve (edge_a events hw) fw in
  - 2 ^ 31 < position (encoder_state fw) < 2 ^ 31 - 1 ->
  position (encoder_state fw') =
    (if Bool.eqb (level_a hw) (level_b hw)
     then position (encoder_state fw) + 1
     else position (encoder_state fw) - 1) /\
  pulse_count (encoder_state fw') = u32 (pulse_count (encoder_state fw) + 1) /\
  last_pulse_time (encoder_state fw') = irq_time hw.
Proof.
  intros fw fw' Hrange. subst fw'.
  rewrite edge_a_position, edge_a_pulse_count, edge_a_last_pulse_time.
  repeat split. unfold direction.
  destruct (Bool.eqb (level_a hw) (level_b hw));
    apply s32_small; unfold in_s32; lia.
Qed.

Lemma quadrature_edge_step_witness :
  (- 2 ^ 31 < 0 < 2 ^ 31 - 1) /\
  position (encoder_state
    (serve (edge_a GPIO_IRQ_EDGE_FALL (mk_irq_inputs 300000 true false 300001))
           (booted 250000))) = -1.
Proof.
  split; [ lia | ].
  apply (quadrature_edge_step [] GPIO_IRQ_EDGE_FALL
           (mk_irq_inputs 300000 true false 300001) (booted 250000)).
  cbn. lia.
Defined.

(** C8. An edge of the index channel sets [index_detected] and changes no
    other field of the encoder state: position, pulse count, velocity and
    time of the last pulse keep their values, so the position is not reset. *)
Theorem index_edge_only_sets_flag
    (events : Z) (hw : irq_inputs) (fw : firmware) :
  let fw' := serve (edge_index events hw) fw in
  index_detected (encoder_state fw') = true /\
  position (encoder_state fw') = position (encoder_state fw) /\
  pulse_count (encoder_state fw') = pulse_count (encoder_state fw) /\
  velocity (encoder_state fw') = velocity (encoder_state fw) /\
  last_pulse_time (encoder_state fw') = last_pulse_time (encoder_state fw).
Proof. repeat split. Qed.

(** ** The camera trigger synchroniser *)

(** C5. Serving a phase-A edge pulses the camera pin, and increments the
    trigger counter, exactly when the pulse counter it has just incremented
    is a multiple of 100; otherwise it does neither.  Hence any 250
    phase-A edges served from a state whose two counters are zero fire the
    trigger twice, during the 100th and the 200th edge. *)
Theorem camera_trigger_cadence :
  (forall (events : Z) (hw : irq_inputs) (fw : firmware),
     let fw' := serve (edge_a events hw) fw in
     let fires := pulse_count (encoder_state fw') mod 100 =? 0 in
     trace fw' =
       trace fw ++
       (if fires
        then [GpioPut CAMERA_TRIGGER_PIN true; SleepUs 100;
              GpioPut CAMERA_TRIGGER_PIN false]
        else []) /\
     camera_trigger_count fw' =
       (if fires then u32 (camera_trigger_count fw + 1)
        else camera_trigger_count fw)) /\
  (forall (es : list (Z * irq_inputs)) (fw0 : firmware),
     pulse_count (encoder_state fw0) = 0 ->
     camera_trigger_count fw0 = 0 ->
     length es = 250%nat ->
     firing_edges 1 (phase_a_edges es) fw0 = [100%nat; 200%nat] /\
     camera_trigger_count (serve_all (phase_a_edges es) fw0) = 2).
Proof.
  split.
  - intros events hw fw fw' fires. subst fires fw'.
    rewrite edge_a_pulse_count, edge_a_trace, edge_a_trigger_count.
    split; reflexivity.
  - intros es fw0 Hpc Hctc Hlen. split.
    + rewrite firing_edges_cadence, Hlen, Hpc. reflexivity.
    + destruct (serve_all_keeps_cadence (phase_a_edges es) fw0) as [Hp Hc].
      * lia.
      * rewrite phase_a_count_edges, Hlen, Hpc. reflexivity.
      * now rewrite Hctc, Hpc.
      * rewrite Hc, Hp, phase_a_count_edges, Hlen, Hpc. reflexivity.
Qed.

Lemma camera_trigger_cadence_witness :
  let es := repeat (GPIO_IRQ_EDGE_RISE, mk_irq_inputs 300000 true true 300000)
                   250 in
  pulse_count (encoder_state (booted 250000)) = 0 /\
  camera_trigger_count (booted 250000) = 0 /\
  length es = 250%nat /\
  firing_edges 1 (phase_a_edges es) (booted 250000) = [100%nat; 200%nat] /\
  camera_trigger_count (serve_all (phase_a_edges es) (booted 250000)) = 2.
Proof.
  intros es.
  split; [ reflexivity | ]. split; [ reflexivity | ].
  split; [ reflexivity | ].
  apply (proj2 camera_trigger_cadence es (booted 250000));
    reflexivity.
Defined.

(** C10. In every execution from the state left by initialisation, made of
    handler invocations (on any pin) and passes of the loop body, with fewer
    than 2^32 phase-A edges in all, the pulse counter is the number of
    phase-A edges served and the camera trigger counter equals the pulse
    counter divided by 100. *)
Theorem trigger_count_is_pulse_quotient (now : Z) (acts : list activity) :
  Z.of_nat (phase_a_count (interrupts_of acts)) < 2 ^ 32 ->
  pulse_count (encoder_state (execute acts (booted now))) =
    Z.of_nat (phase_a_count (interrupts_of acts)) /\
  camera_trigger_count (execute acts (booted now)) =
    pulse_count (encoder_state (execute acts (booted now))) / 100.
Proof.
  intros Hfew.
  destruct (execute_keeps_cadence acts (booted now)) as [Hp Hc];
    cbn; try lia; try reflexivity.
  split; [ exact Hp | exact Hc ].
Qed.

Lemma trigger_count_is_pulse_quotient_witness :
  let acts :=
    map Interrupt
        (phase_a_edges
           (repeat (GPIO_IRQ_EDGE_RISE, mk_irq_inputs 300000 true true 300000)
                   100)) ++
    [Interrupt (edge_index GPIO_IRQ_EDGE_RISE
                           (mk_irq_inputs 300500 true true 300500));
     LoopPass (mk_loop_inputs 301000 (repeat 0 14) 0x71)] in
  Z.of_nat (phase_a_count (interrupts_of acts)) < 2 ^ 32 /\
  pulse_count (encoder_state (execute acts (booted 250000))) =
    Z.of_nat (phase_a_count (interrupts_of acts)) /\
  camera_trigger_count (execute acts (booted 250000)) =
    pulse_count (encoder_state (execute acts (booted 250000))) / 100.
Proof.
  intros acts.
  assert (Hfew : Z.of_nat (phase_a_count (interrupts_of acts)) < 2 ^ 32)
    by (vm_compute; reflexivity).
  split; [ exact Hfew | ].
  exact (trigger_count_is_pulse_quotient 250000 acts Hfew).
Defined.

(** ** The velocity estimator *)

Section EstimatorFacts.

(** A phase-A edge moves [last_velocity_update] to the estimator's clock
    reading when the rate limit lets the call through, and leaves it
    alone otherwise. *)
Lemma edge_a_last_velocity_update events hw fw :
  last_velocity_update (serve (edge_a events hw) fw) =
  if rate_limit_elapsed (vel_time hw) fw
  then vel_time hw
  else last_velocity_update fw.
Proof.
  unfold serve, edge_a, encoder_irq_handler, update_encoder_velocity,
    rate_limit_elapsed, time_diff; cbn.
  destruct (Bool.eqb (level_a hw) (level_b hw)); cbn;
    destruct (_ mod _ =? 0); cbn;
    destruct (10000 <=? _); cbn; try reflexivity;
    destruct (0 <? _); reflexivity.
Qed.

Lemma estimates_edge_a events hw fw :
  estimates (edge_a events hw) fw =
  rate_limit_elapsed (vel_time hw) fw && (0 <? time_diff (vel_time hw) fw).
Proof. reflexivity. Qed.

(** [estimates] tells whether the velocity field is assigned. *)
Lemma estimates_sound events hw fw :
  velocity (encoder_state (serve (edge_a events hw) fw)) =
  if estimates (edge_a events hw) fw
  then velocity_expr
         (s32 (s32 (position (encoder_state fw) + direction hw)
               - last_position fw))
         (time_diff (vel_time hw) fw)
  else velocity (encoder_state fw).
Proof.
  rewrite estimates_edge_a.
  unfold serve, edge_a, encoder_irq_handler, update_encoder_velocity,
    rate_limit_elapsed, time_diff, position_diff, direction; cbn.
  destruct (Bool.eqb (level_a hw) (level_b hw)); cbn;
    destruct (_ mod _ =? 0); cbn;
    destruct (10000 <=? _); cbn; try reflexivity;
    destruct (0 <? _); reflexivity.
Qed.


(** Where the product fits an [int] and nothing is negative, the stored
    velocity is the integer quotient. *)
Lemma velocity_expr_forward pdiff tdiff :
  0 <= pdiff -> pdiff * 1000000 < 2 ^ 31 -> 0 < tdiff ->
  velocity_expr pdiff tdiff = pdiff * 1000000 / tdiff.
Proof.
  intros Hp Hprod Ht. unfold velocity_expr.
  rewrite (s32_small (pdiff * 1000000)) by (unfold in_s32; lia).
  rewrite (u64_small (pdiff * 1000000)) by (unfold in_u64; lia).
  apply s32_small. unfold in_s32.
  assert (0 <= pdiff * 1000000 / tdiff <= pdiff * 1000000).
  { split; [ apply Z.div_pos; lia | ].
    apply Z.div_le_upper_bound; nia. }
  lia.
Qed.

(** A call whose clock reading equals [last_velocity_update] (a time
    difference of zero) changes nothing. *)
Lemma zero_time_diff_no_update fw :
  update_encoder_velocity (last_velocity_update fw) fw = fw.
Proof.
  unfold update_encoder_velocity, rate_limit_elapsed.
  now rewrite Z.sub_diag.
Qed.

End EstimatorFacts.

Example velocity_five_pulses_in_ten_ms : velocity_expr 5 10000 = 500.
Proof. reflexivity. Qed.


(** C9. Whenever the rate-limit check of the estimator passes, the time
    difference tested by the divide-by-zero guard is at least 10000
    microseconds, so it is not zero, the guard does not skip, and the
    velocity is assigned the quotient. *)
Theorem divide_guard_never_skips (now : Z) (fw : firmware) :
  rate_limit_elapsed now fw = true ->
  10000 <= time_diff now fw /\
  time_diff now fw <> 0 /\
  guard_skips now fw = false /\
  velocity (encoder_state (update_encoder_velocity now fw)) =
    velocity_expr (position_diff fw) (time_diff now fw).
Proof.
  intros Hopen.
  assert (Hbig : 10000 <= time_diff now fw).
  { unfold rate_limit_elapsed in Hopen. unfold time_diff.
    apply Z.leb_le. exact Hopen. }
  assert (Hguard : (0 <? time_diff now fw) = true) by (apply Z.ltb_lt; lia).
  repeat split.
  - exact Hbig.
  - lia.
  - unfold guard_skips. now rewrite Hguard, andb_false_r.
  - unfold update_encoder_velocity. now rewrite Hopen, Hguard.
Qed.

Lemma divide_guard_never_skips_witness :
  rate_limit_elapsed 310000 (booted 250000) = true /\
  10000 <= time_diff 310000 (booted 250000) /\
  guard_skips 310000 (booted 250000) = false.
Proof.
  split; [ reflexivity | ].
  destruct (divide_guard_never_skips 310000 (booted 250000) eq_refl)
    as (Hbig & _ & Hguard & _).
  split; [ exact Hbig | exact Hguard ].
Defined.

Section WindowFacts.


Lemma within_weaken w w' ts : w <= w' -> within w ts -> within w' ts.
Proof.
  intros Hle Hw. unfold within in *.
  induction Hw as [ | t ts Hs IH Hall]; constructor; [ exact IH | ].
  eapply Forall_impl; [ | exact Hall ]. cbn. intros; lia.
Qed.

End WindowFacts.


(** C3. With a position difference of -5 over a time difference of 10000
    microseconds the estimator performs an update, and the velocity it
    stores is -1161359657, not the signed quotient -500: the product is
    converted to [uint64_t] before the division. *)
Theorem reverse_velocity_is_not_signed_quotient :
  let fw := serve_all (phase_a_edges reverse_run) (booted 250000) in
  let fw' := serve reverse_sixth fw in
  estimates reverse_sixth fw = true /\
  position (encoder_state fw') - last_position fw = -5 /\
  vel_time (irq_hw reverse_sixth) - last_velocity_update fw = 10000 /\
  velocity (encoder_state fw') = velocity_expr (-5) 10000 /\
  velocity_expr (-5) 10000 = -1161359657 /\
  Z.quot (-5 * 1000000) 10000 = -500.
Proof. vm_compute. repeat split. Qed.

(** ** The sampling loop *)

Section SamplingFacts.

Lemma events_since_app fw fw' evs :
  trace fw' = trace fw ++ evs -> events_since fw fw' = evs.
Proof.
  unfold events_since. intros ->.
  induction (trace fw) as [ | e tr IH]; [ reflexivity | exact IH ].
Qed.

(** The trace of the sampling branch. *)
Lemma sampling_branch_trace hw fw :
  exists text,
    trace (run_stmts hw sampling_branch fw) =
    trace fw ++ sampling_events text.
Proof.
  eexists. cbn [run_stmts sampling_branch exec_stmt].
  cbn [trace set_last_imu_read emit send_data_uart imu_read_data
       with_current_data].
  repeat rewrite <- app_assoc. reflexivity.
Qed.

(** What follows the sampling branch in a pass only appends to the trace. *)
Lemma loop_body_trace hw fw :
  sample_due hw fw = true ->
  exists text rest,
    trace (loop_body hw fw) = trace fw ++ sampling_events text ++ rest.
Proof.
  intros Hdue. unfold loop_body. rewrite Hdue.
  destruct (sampling_branch_trace hw fw) as [text Htr].
  exists text. revert Htr.
  generalize (run_stmts hw sampling_branch fw) as fw1. intros fw1 Htr.
  destruct (1000000 <=? _); destruct (_ mod _ =? 0);
    unfold system_health_check, status_led_toggle;
    try destruct (negb _);
    cbn [trace emit set_last_status_update set_led_state];
    rewrite Htr; repeat rewrite <- app_assoc; eexists; reflexivity.
Qed.

(** With no request served in between, the three copies agree with the
    motion state the branch started from. *)
Lemma quiet_snapshot_consistent hw fw :
  motion_in_sample (current_data (run_stmts hw sampling_branch fw)) =
  motion_at fw.
Proof. reflexivity. Qed.

Lemma run_preempted_quiet hw sts : forall fw,
  run_preempted hw [] sts fw = run_stmts hw sts fw.
Proof.
  induction sts as [ | st sts IH]; intros fw; [ reflexivity | ].
  cbn [run_preempted run_stmts hd tl serve_all]. apply IH.
Qed.

Lemma events_since_same fw fw' :
  trace fw' = trace fw -> events_since fw fw' = [].
Proof.
  intros H. apply events_since_app. now rewrite app_nil_r.
Qed.

(** The locks held at each statement of the sampling branch. *)
Lemma sampling_branch_locks hw fw :
  stmts_with_locks hw no_locks sampling_branch fw =
  [(LockData, mk_lockset false false);
   (StampTime, mk_lockset true false);
   (CopyPosition, mk_lockset true false);
   (CopyVelocity, mk_lockset true false);
   (CopyTriggerCount, mk_lockset true false);
   (CopyStatus, mk_lockset true false);
   (ReadImu, mk_lockset true false);
   (SendUart, mk_lockset true false);
   (UnlockData, mk_lockset true false);
   (MarkSampled, mk_lockset false false)].
Proof.
  unfold sampling_branch. cbn [stmts_with_locks].
  repeat match goal with
  | |- context [events_since ?a (exec_stmt ?hw ?st ?a)] =>
      first
        [ rewrite (events_since_same a (exec_stmt hw st a)) by reflexivity
        | erewrite (events_since_app a (exec_stmt hw st a)) by reflexivity ]
  end.
  reflexivity.
Qed.

Lemma loop_body_extends_branch hw fw :
  sample_due hw fw = true ->
  exists rest,
    trace (loop_body hw fw) = trace (run_stmts hw sampling_branch fw) ++ rest.
Proof.
  intros Hdue. unfold loop_body. rewrite Hdue.
  generalize (run_stmts hw sampling_branch fw) as fw1. intros fw1.
  destruct (1000000 <=? _); destruct (_ mod _ =? 0);
    unfold system_health_check, status_led_toggle;
    try destruct (negb _);
    cbn [trace emit set_last_status_update set_led_state];
    repeat rewrite <- app_assoc; eexists; reflexivity.
Qed.

End SamplingFacts.

(** The arguments handed to the format string for position 123 and an
    acceleration of (1, 0, 0): the binary32 product 12.30000019073486328125
    and the square root 1, both promoted to binary64. *)
Example telemetry_arguments_123 :
  let d := mk_sensor_data 0 123 0 (Flt.f32_of_int 1) Flt.f32_zero Flt.f32_zero
             Flt.f32_zero Flt.f32_zero Flt.f32_zero 0 0 in
  chainage_arg d = S754_finite false 6924284534456320 (-49) /\
  value_arg d = S754_finite false 4503599627370496 (-52).
Proof. split; reflexivity. Qed.

(** C2, as stated, fails: in the first pass that samples after
    initialisation, the bus transfers and the serial write all run with the
    data lock held. *)
Lemma data_lock_held_across_transfers :
  ~ Forall (fun p => data_held (snd p) = false)
      (transfers_of_pass (quiet_imu 260000) (booted 250000)).
Proof.
  intros Hall.
  assert (Hhd : exists e rest,
             transfers_of_pass (quiet_imu 260000) (booted 250000) =
             (e, mk_lockset true false) :: rest)
    by (vm_compute; eauto).
  destruct Hhd as (e & rest & Heq). rewrite Heq in Hall.
  inversion Hall as [ | p ps Hp _]; subst. discriminate Hp.
Qed.

(** C2, amended. In every pass of the loop body in which a sample is due,
    the pass begins by taking the data lock, copying the time stamp and the
    motion-state fields, doing the register write and the 14-byte read on
    the inertial-sensor bus, writing the telemetry line to the serial port
    under the serial lock, and only then releasing the data lock: the
    copies and all three transfers run while the data lock is held, and
    only the first and the last statement of the branch run without it. *)
Theorem data_lock_spans_sampling (hw : loop_inputs) (fw : firmware) :
  sample_due hw fw = true ->
  exists text rest,
    events_since fw (loop_body hw fw) = sampling_events text ++ rest /\
    transfers_with_locks no_locks (sampling_events text) =
      [(I2cWrite IMU_I2C_ADDR [IMU_ACCEL_XOUT_H] true, mk_lockset true false);
       (I2cRead IMU_I2C_ADDR 14 false, mk_lockset true false);
       (UartPuts text, mk_lockset true true)] /\
    Forall (fun p => data_held (snd p) = true)
           (transfers_with_locks no_locks (sampling_events text)) /\
    events_since fw (run_stmts hw sampling_branch fw) = sampling_events text /\
    stmts_with_locks hw no_locks sampling_branch fw =
      [(LockData, mk_lockset false false);
       (StampTime, mk_lockset true false);
       (CopyPosition, mk_lockset true false);
       (CopyVelocity, mk_lockset true false);
       (CopyTriggerCount, mk_lockset true false);
       (CopyStatus, mk_lockset true false);
       (ReadImu, mk_lockset true false);
       (SendUart, mk_lockset true false);
       (UnlockData, mk_lockset true false);
       (MarkSampled, mk_lockset false false)].
Proof.
  intros Hdue.
  destruct (sampling_branch_trace hw fw) as [text Hbranch].
  destruct (loop_body_extends_branch hw fw Hdue) as [rest Hpass].
  exists text, rest. split; [ | split; [ | split; [ | split ] ] ].
  - apply events_since_app. rewrite Hpass, Hbranch. now rewrite <- app_assoc.
  - reflexivity.
  - cbn. repeat constructor.
  - apply events_since_app. exact Hbranch.
  - apply sampling_branch_locks.
Qed.

Lemma data_lock_spans_sampling_witness :
  sample_due (quiet_imu 260000) (booted 250000) = true /\
  exists text rest,
    events_since (booted 250000) (loop_body (quiet_imu 260000) (booted 250000))
      = sampling_events text ++ rest /\
    Forall (fun p => data_held (snd p) = true)
           (transfers_with_locks no_locks (sampling_events text)) /\
    In (CopyPosition, mk_lockset true false)
       (stmts_with_locks (quiet_imu 260000) no_locks sampling_branch
                         (booted 250000)).
Proof.
  split; [ reflexivity | ].
  destruct (data_lock_spans_sampling (quiet_imu 260000) (booted 250000) eq_refl)
    as (text & rest & Hev & _ & Hall & _ & Hlocks).
  exists text, rest. split; [ exact Hev | ]. split; [ exact Hall | ].
  rewrite Hlocks. cbn. tauto.
Defined.

(** C1. The 100th edge served between the copy of the position and the copy
    of the velocity: the sample holds the position from before the edge (99)
    with the velocity and trigger count from after it (990 and 1), a triple
    the motion state held at no interrupt boundary of the run. *)
Theorem snapshot_tears_under_preemption :
  let hw := quiet_imu 399990 in
  let fw' :=
    run_preempted hw edge_after_position_copy sampling_branch
                  before_hundredth in
  motion_in_sample (current_data fw') = (99, 990, 1) /\
  boundaries hw edge_after_position_copy sampling_branch before_hundredth =
    [(99, 3, 0); (100, 990, 1)] /\
  ~ In (motion_in_sample (current_data fw'))
       (boundaries hw edge_after_position_copy sampling_branch
                   before_hundredth).
Proof.
  intros hw fw'.
  assert (Hs : motion_in_sample (current_data fw') = (99, 990, 1))
    by (vm_compute; reflexivity).
  assert (Hb : boundaries hw edge_after_position_copy sampling_branch
                 before_hundredth = [(99, 3, 0); (100, 990, 1)])
    by (vm_compute; reflexivity).
  split; [ exact Hs | ]. split; [ exact Hb | ].
  rewrite Hs, Hb. intros [H | [H | []]]; discriminate H.
Qed.

(** ** What a handler invocation leaves behind *)

Section InterruptFootprint.

Lemma locks_after_app h tr1 tr2 :
  locks_after h (tr1 ++ tr2) = locks_after (locks_after h tr1) tr2.
Proof. unfold locks_after. apply fold_left_app. Qed.

Lemma transfers_with_locks_app tr1 : forall h tr2,
  transfers_with_locks h (tr1 ++ tr2) =
  transfers_with_locks h tr1 ++
  transfers_with_locks (locks_after h tr1) tr2.
Proof.
  induction tr1 as [ | e tr1 IH]; intros h tr2; [ reflexivity | ].
  cbn [app transfers_with_locks]. rewrite IH, <- app_assoc. reflexivity.
Qed.

Lemma pin_level_app pin tr1 tr2 :
  pin_level pin (tr1 ++ tr2) =
  match pin_level pin tr2 with
  | Some level => Some level
  | None => pin_level pin tr1
  end.
Proof.
  unfold pin_level. rewrite fold_left_app.
  generalize (fold_left (pin_write pin) tr1 None) as acc.
  induction tr2 as [ | e tr2 IH]; intros acc; [ reflexivity | ].
  cbn [fold_left]. rewrite IH.
  destruct e as [ | | p level | | | | ]; cbn [pin_write]; try (now rewrite IH).
  destruct (p =? pin); [ | now rewrite IH ].
  rewrite (IH (Some level)). now destruct (fold_left _ tr2 None).
Qed.

Lemma telemetry_stamps_app tr1 tr2 :
  telemetry_stamps (tr1 ++ tr2) = telemetry_stamps tr1 ++ telemetry_stamps tr2.
Proof.
  induction tr1 as [ | e tr1 IH]; [ reflexivity | ].
  destruct e as [ | | | | | | [ | c ts v]]; cbn; now rewrite IH.
Qed.

(** The events one request appends. *)
Lemma serve_events q fw :
  trace (serve q fw) = trace fw \/
  trace (serve q fw) =
    trace fw ++ [GpioPut CAMERA_TRIGGER_PIN true; SleepUs 100;
                 GpioPut CAMERA_TRIGGER_PIN false].
Proof.
  destruct (Z.eqb_spec (irq_gpio q) ENCODER_A_PIN) as [E | E].
  - rewrite (serve_is_edge_a _ _ E), edge_a_trace.
    destruct (_ =? 0); [ now right | left; apply app_nil_r ].
  - left. now destruct (serve_not_a q fw E) as (_ & _ & _ & ->).
Qed.

(** The fields owned by the main loop are out of the handler's reach. *)
Lemma serve_main_frame q fw :
  current_data (serve q fw) = current_data fw /\
  last_imu_read (serve q fw) = last_imu_read fw /\
  last_status_update (serve q fw) = last_status_update fw /\
  led_state (serve q fw) = led_state fw /\
  system_initialized (serve q fw) = system_initialized fw.
Proof.
  unfold serve, encoder_irq_handler, update_encoder_velocity.
  destruct (irq_gpio q =? ENCODER_A_PIN).
  - destruct (Bool.eqb _ _); cbn;
      destruct (_ mod _ =? 0); cbn;
      destruct (rate_limit_elapsed _ _); cbn; try (repeat split; fail);
      destruct (0 <? _); repeat split.
  - destruct (irq_gpio q =? ENCODER_INDEX_PIN); repeat split.
Qed.

Lemma serve_all_main_frame qs : forall fw,
  current_data (serve_all qs fw) = current_data fw /\
  last_imu_read (serve_all qs fw) = last_imu_read fw /\
  last_status_update (serve_all qs fw) = last_status_update fw /\
  led_state (serve_all qs fw) = led_state fw /\
  system_initialized (serve_all qs fw) = system_initialized fw.
Proof.
  induction qs as [ | q qs IH]; intros fw; [ repeat split | ].
  cbn [serve_all].
  destruct (IH (serve q fw)) as (-> & -> & -> & -> & ->).
  apply serve_main_frame.
Qed.

End InterruptFootprint.

(** X7. Serving any run of interrupt requests, on any pins and in any
    state, appends nothing to the trace but camera-pin writes and the
    100 microsecond hold: no bus or serial transfer is made and the locks
    held are left as they were. *)
Theorem interrupts_never_transfer_or_lock
    (qs : list irq) (fw : firmware) (h : lockset) :
  exists evs,
    trace (serve_all qs fw) = trace fw ++ evs /\
    forallb trigger_event evs = true /\
    transfers_with_locks h evs = [] /\
    locks_after h evs = h.
Proof.
  revert fw. induction qs as [ | q qs IH]; intros fw.
  - exists []. cbn. now rewrite app_nil_r.
  - cbn [serve_all]. destruct (IH (serve q fw)) as (evs & Htr & Hok & Hx & Hl).
    destruct (serve_events q fw) as [Hq | Hq]; rewrite Hq in Htr.
    + exists evs. repeat split; assumption.
    + exists ([GpioPut CAMERA_TRIGGER_PIN true; SleepUs 100;
               GpioPut CAMERA_TRIGGER_PIN false] ++ evs).
      rewrite <- app_assoc in Htr. split; [ exact Htr | ].
      split; [ cbn; exact Hok | ]. split; [ exact Hx | exact Hl ].
Qed.

(** ** What a pass of the loop body leaves behind *)

(** Closes the footprint of a pass once its events are known. *)
Ltac pass_footprint :=
  repeat match goal with |- _ /\ _ => split end;
  try reflexivity;
  try (repeat constructor; fail);
  try (match goal with
       | |- context [if ?b then _ else _] => destruct b; reflexivity
       end).

Section PassFootprint.

Lemma trace_send_data_uart fw :
  trace (send_data_uart fw) =
  trace fw ++
  [MutexEnter uart_mutex;
   UartPuts (TelemetryJson (chainage_arg (current_data fw))
                           (timestamp_us (current_data fw))
                           (value_arg (current_data fw)));
   MutexExit uart_mutex].
Proof. reflexivity. Qed.

Lemma trace_imu_read_data buffer fw :
  trace (imu_read_data buffer fw) =
  trace fw ++ [I2cWrite IMU_I2C_ADDR [IMU_ACCEL_XOUT_H] true;
               I2cRead IMU_I2C_ADDR 14 false].
Proof. reflexivity. Qed.

Lemma sampled_trace hw fw :
  trace (sampled hw fw) =
  trace fw ++ [MutexEnter data_mutex;
               I2cWrite IMU_I2C_ADDR [IMU_ACCEL_XOUT_H] true;
               I2cRead IMU_I2C_ADDR 14 false].
Proof.
  unfold sampled. cbn [run_stmts exec_stmt].
  rewrite trace_imu_read_data. cbn [trace with_current_data emit].
  now rewrite <- app_assoc.
Qed.

Lemma sampled_timestamp hw fw :
  timestamp_us (current_data (sampled hw fw)) = loop_time hw.
Proof. reflexivity. Qed.

Lemma sampled_motion hw fw :
  motion_in_sample (current_data (sampled hw fw)) = motion_at fw.
Proof. reflexivity. Qed.

Lemma sampling_branch_sampled hw fw :
  run_stmts hw sampling_branch fw =
  set_last_imu_read (loop_time hw)
    (emit [MutexExit data_mutex] (send_data_uart (sampled hw fw))).
Proof. reflexivity. Qed.

Lemma sampling_branch_stamped hw fw :
  trace (run_stmts hw sampling_branch fw) =
  trace fw ++
  sampling_events
    (TelemetryJson (chainage_arg (current_data (sampled hw fw)))
                   (loop_time hw)
                   (value_arg (current_data (sampled hw fw)))).
Proof.
  rewrite sampling_branch_sampled.
  cbn [trace set_last_imu_read emit].
  rewrite trace_send_data_uart, sampled_trace, sampled_timestamp.
  repeat rewrite <- app_assoc. reflexivity.
Qed.

(** The footprint of one pass. *)
Lemma loop_body_events hw fw :
  exists evs,
    trace (loop_body hw fw) = trace fw ++ evs /\
    locks_after no_locks evs = no_locks /\
    Forall serial_guarded (transfers_with_locks no_locks evs) /\
    trigger_pulses evs = 0%nat /\
    pin_level CAMERA_TRIGGER_PIN evs = None /\
    telemetry_stamps evs = if sample_due hw fw then [loop_time hw] else [].
Proof.
  unfold loop_body.
  destruct (sample_due hw fw).
  - generalize (sampling_branch_stamped hw fw).
    generalize (chainage_arg (current_data (sampled hw fw))) as c.
    generalize (value_arg (current_data (sampled hw fw))) as v.
    generalize (run_stmts hw sampling_branch fw) as fw1.
    intros fw1 v c Htr.
    destruct (1000000 <=? _); destruct (_ mod _ =? 0);
      unfold system_health_check, status_led_toggle;
      try destruct (negb (_ =? _));
      cbn [trace emit set_last_status_update set_led_state led_state];
      rewrite Htr; repeat rewrite <- app_assoc;
      eexists; (split; [ reflexivity | ]);
      cbn; pass_footprint.
  - destruct (1000000 <=? _); destruct (_ mod _ =? 0);
      unfold system_health_check, status_led_toggle;
      try destruct (negb (_ =? _));
      cbn [trace emit set_last_status_update set_led_state led_state];
      repeat rewrite <- app_assoc;
      eexists; (split; [ reflexivity | ]);
      cbn; pass_footprint.
Qed.

(** The statics of the sample timer after a pass. *)
Lemma loop_body_last_imu_read hw fw :
  last_imu_read (loop_body hw fw) =
  if sample_due hw fw then loop_time hw else last_imu_read fw.
Proof.
  unfold loop_body.
  destruct (sample_due hw fw);
    destruct (1000000 <=? _); destruct (_ mod _ =? 0);
    unfold system_health_check; try destruct (negb _); reflexivity.
Qed.

End PassFootprint.

(** ** Whole executions *)

Section ExecutionInvariants.

Lemma serve_stamps q fw :
  telemetry_stamps (trace (serve q fw)) = telemetry_stamps (trace fw).
Proof.
  destruct (serve_events q fw) as [-> | ->]; [ reflexivity | ].
  rewrite telemetry_stamps_app. cbn. apply app_nil_r.
Qed.

Lemma serve_index_detected q fw :
  index_detected (encoder_state (serve q fw)) =
  index_detected (encoder_state fw) || (irq_gpio q =? ENCODER_INDEX_PIN).
Proof.
  unfold serve, encoder_irq_handler.
  destruct (Z.eqb_spec (irq_gpio q) ENCODER_A_PIN) as [E | E].
  - rewrite E. cbn [Z.eqb ENCODER_A_PIN ENCODER_INDEX_PIN Pos.eqb].
    rewrite orb_false_r.
    match goal with
    | |- context [update_encoder_velocity ?n ?f] =>
        destruct (update_velocity_frame n f) as (_ & _ & _ & -> & _)
    end.
    destruct (Bool.eqb _ _); cbn; destruct (_ mod _ =? 0); reflexivity.
  - destruct (irq_gpio q =? ENCODER_INDEX_PIN); cbn.
    + now rewrite orb_true_r.
    + now rewrite orb_false_r.
Qed.

Lemma StronglySorted_snoc {A} (R : A -> A -> Prop) l x :
  StronglySorted R l -> Forall (fun a => R a x) l ->
  StronglySorted R (l ++ [x]).
Proof.
  induction 1 as [ | a l Hs IH Ha]; intros Hx; cbn.
  - repeat constructor.
  - inversion Hx as [ | a' l' Hax Hlx]; subst.
    constructor; [ exact (IH Hlx) | ].
    apply Forall_app. split; [ exact Ha | now constructor ].
Qed.

Lemma sample_due_gap hw fw :
  last_imu_read fw <= loop_time hw ->
  sample_due hw fw = true ->
  1000 <= loop_time hw - last_imu_read fw.
Proof.
  unfold sample_due, IMU_SAMPLE_RATE_HZ, u64. intros Hle Hdue.
  apply Z.leb_le in Hdue. change (1000000 / 1000) with 1000 in Hdue.
  pose proof (Z.mod_le (loop_time hw - last_imu_read fw) (2 ^ 64)).
  lia.
Qed.

(** The invariant behind the spacing of telemetry stamps. *)
Lemma execute_keeps_spacing acts : forall fw,
  spaced (telemetry_stamps (trace fw)) ->
  Forall (fun s => s <= last_imu_read fw) (telemetry_stamps (trace fw)) ->
  StronglySorted Z.le (last_imu_read fw :: loop_clock acts) ->
  spaced (telemetry_stamps (trace (execute acts fw))).
Proof.
  induction acts as [ | [q | hw] acts IH]; intros fw Hsp Hold Hclock.
  - exact Hsp.
  - cbn [execute perform loop_clock] in *. apply IH.
    + now rewrite serve_stamps.
    + rewrite serve_stamps.
      now destruct (serve_main_frame q fw) as (_ & -> & _).
    + now destruct (serve_main_frame q fw) as (_ & -> & _).
  - cbn [execute perform loop_clock] in *.
    inversion Hclock as [ | t0 ts Hrest Hlow]; subst.
    inversion Hlow as [ | t1 ts1 Hle Hlow']; subst.
    destruct (loop_body_events hw fw) as (evs & Htr & _ & _ & _ & _ & Hst).
    apply IH; rewrite ?Htr, ?telemetry_stamps_app, ?Hst,
                ?loop_body_last_imu_read.
    + destruct (sample_due hw fw) eqn:Hdue.
      * apply StronglySorted_snoc; [ exact Hsp | ].
        pose proof (sample_due_gap hw fw Hle Hdue) as Hgap.
        eapply Forall_impl; [ | exact Hold ]. cbn. intros; lia.
      * now rewrite app_nil_r.
    + destruct (sample_due hw fw).
      * apply Forall_app. split; [ | repeat constructor; lia ].
        eapply Forall_impl; [ | exact Hold ]. cbn. intros; lia.
      * now rewrite app_nil_r.
    + destruct (sample_due hw fw); [ exact Hrest | ].
      constructor; [ now inversion Hrest | exact Hlow' ].
Qed.

(** The invariant behind the trigger counter. *)
Lemma execute_counts_pulses acts : forall fw,
  camera_trigger_count fw = u32 (Z.of_nat (trigger_pulses (trace fw))) ->
  pin_level CAMERA_TRIGGER_PIN (trace fw) <> Some true ->
  camera_trigger_count (execute acts fw) =
    u32 (Z.of_nat (trigger_pulses (trace (execute acts fw)))) /\
  pin_level CAMERA_TRIGGER_PIN (trace (execute acts fw)) <> Some true.
Proof.
  induction acts as [ | [q | hw] acts IH]; intros fw Hc Hp.
  - split; assumption.
  - cbn [execute perform]. apply IH.
    + destruct (Z.eqb_spec (irq_gpio q) ENCODER_A_PIN) as [E | E].
      * rewrite (serve_is_edge_a _ _ E), edge_a_trigger_count, edge_a_trace.
        rewrite trigger_pulses_app.
        destruct (_ =? 0); cbn.
        -- rewrite Hc, u32_u32_add. f_equal. lia.
        -- rewrite Hc. f_equal. lia.
      * now destruct (serve_not_a q fw E) as (_ & _ & -> & ->).
    + destruct (serve_events q fw) as [-> | ->]; [ exact Hp | ].
      rewrite pin_level_app. cbn. discriminate.
  - cbn [execute perform]. apply IH.
    + destruct (loop_body_events hw fw) as (evs & -> & _ & _ & Hz & _).
      destruct (loop_body_motion hw fw) as [_ ->].
      now rewrite trigger_pulses_app, Hz, Nat.add_0_r.
    + destruct (loop_body_events hw fw) as (evs & -> & _ & _ & _ & Hn & _).
      now rewrite pin_level_app, Hn.
Qed.

(** The invariant behind the lock discipline. *)
Lemma execute_keeps_locks acts : forall fw,
  locks_after no_locks (trace fw) = no_locks ->
  Forall serial_guarded (transfers_with_locks no_locks (trace fw)) ->
  locks_after no_locks (trace (execute acts fw)) = no_locks /\
  Forall serial_guarded
         (transfers_with_locks no_locks (trace (execute acts fw))).
Proof.
  induction acts as [ | [q | hw] acts IH]; intros fw Hl Hg.
  - split; assumption.
  - cbn [execute perform].
    apply IH; destruct (serve_events q fw) as [-> | ->]; try assumption.
    + now rewrite locks_after_app, Hl.
    + rewrite transfers_with_locks_app, Hl. cbn. now rewrite app_nil_r.
  - cbn [execute perform].
    destruct (loop_body_events hw fw) as (evs & Htr & Hl' & Hg' & _).
    apply IH; rewrite Htr.
    + now rewrite locks_after_app, Hl.
    + rewrite transfers_with_locks_app, Hl. apply Forall_app. now split.
Qed.

Lemma execute_accumulates acts : forall fw,
  in_s32 (position (encoder_state fw)) ->
  in_u32 (pulse_count (encoder_state fw)) ->
  position (encoder_state (execute acts fw)) =
    s32 (position (encoder_state fw) + net_motion (interrupts_of acts)) /\
  pulse_count (encoder_state (execute acts fw)) =
    u32 (pulse_count (encoder_state fw)
         + Z.of_nat (phase_a_count (interrupts_of acts))).
Proof.
  induction acts as [ | [q | hw] acts IH]; intros fw Hpos Hpc.
  - cbn. rewrite !Z.add_0_r.
    split; [ now rewrite s32_small | now rewrite u32_small ].
  - cbn [execute perform interrupts_of net_motion phase_a_count].
    destruct (Z.eqb_spec (irq_gpio q) ENCODER_A_PIN) as [E | E].
    + rewrite (serve_is_edge_a _ _ E).
      destruct (edge_a_fields_in_range (irq_events q) (irq_hw q) fw)
        as [Hpos' Hpc'].
      destruct (IH _ Hpos' Hpc') as [-> ->].
      rewrite edge_a_position, edge_a_pulse_count.
      rewrite s32_s32_add, u32_u32_add. split; f_equal; lia.
    + destruct (serve_not_a q fw E) as (Hc & Hp & _).
      destruct (IH (serve q fw)) as [-> ->]; rewrite ?Hc, ?Hp; try assumption.
      split; f_equal; lia.
  - cbn [execute perform interrupts_of].
    destruct (loop_body_motion hw fw) as [He _].
    destruct (IH (loop_body hw fw)) as [-> ->]; rewrite ?He; try assumption.
    split; reflexivity.
Qed.

Lemma execute_index acts : forall fw,
  index_detected (encoder_state (execute acts fw)) =
  index_detected (encoder_state fw) || index_requested (interrupts_of acts).
Proof.
  induction acts as [ | [q | hw] acts IH]; intros fw.
  - cbn. now rewrite orb_false_r.
  - cbn [execute perform interrupts_of index_requested existsb].
    fold (index_requested (interrupts_of acts)).
    rewrite IH, serve_index_detected. now rewrite orb_assoc.
  - cbn [execute perform interrupts_of].
    rewrite IH. now destruct (loop_body_motion hw fw) as [-> _].
Qed.

End ExecutionInvariants.

(** ** The vulnerable window of the snapshot *)

Section SnapshotWindow.

Lemma exec_stmt_keeps_sample hw st fw :
  copies st = false ->
  motion_in_sample (current_data (exec_stmt hw st fw)) =
  motion_in_sample (current_data fw).
Proof. destruct st; intros H; try discriminate H; reflexivity. Qed.

Lemma run_preempted_keeps_sample hw sts : forall sched fw,
  forallb (fun st => negb (copies st)) sts = true ->
  motion_in_sample (current_data (run_preempted hw sched sts fw)) =
  motion_in_sample (current_data fw).
Proof.
  induction sts as [ | st sts IH]; intros sched fw Hno; [ reflexivity | ].
  cbn [forallb] in Hno. apply andb_true_iff in Hno as [Hst Hsts].
  cbn [run_preempted]. rewrite (IH _ _ Hsts).
  rewrite exec_stmt_keeps_sample by now destruct (copies st).
  now destruct (serve_all_main_frame (hd [] sched) fw) as (-> & _).
Qed.

Lemma run_preempted_cons hw s sched st sts fw :
  run_preempted hw (s :: sched) (st :: sts) fw =
  run_preempted hw sched sts (exec_stmt hw st (serve_all s fw)).
Proof. reflexivity. Qed.

Lemma boundaries_from_cons hw s sched st sts fw :
  boundaries_from hw (s :: sched) (st :: sts) fw =
  boundaries_of s fw ++
  boundaries_from hw sched sts (exec_stmt hw st (serve_all s fw)).
Proof. reflexivity. Qed.

Lemma exec_stmt_motion_at hw st fw :
  motion_at (exec_stmt hw st fw) = motion_at fw.
Proof.
  unfold motion_at. now destruct (exec_stmt_motion hw st fw) as [-> ->].
Qed.

Lemma last_cons_default {A} (a d : A) l : last (a :: l) d = last l a.
Proof.
  revert a d. induction l as [ | b l IH]; intros a d; [ reflexivity | ].
  change (last (a :: b :: l) d) with (last (b :: l) d).
  now rewrite !IH.
Qed.

(** The motion state after a run of requests is the last boundary. *)
Lemma motion_at_serve_all qs : forall fw,
  motion_at (serve_all qs fw) = last (boundaries_of qs fw) (motion_at fw).
Proof.
  induction qs as [ | q qs IH]; intros fw; [ reflexivity | ].
  cbn [serve_all boundaries_of]. now rewrite IH, last_cons_default.
Qed.

Lemma In_last_after {A} (d : A) pre l :
  In d pre -> In (last l d) (pre ++ l).
Proof.
  intros Hd. apply in_or_app.
  destruct l as [ | a l]; [ now left | right ].
  rewrite last_cons_default. clear Hd d pre.
  revert a. induction l as [ | b l IH]; intros a; [ now left | ].
  rewrite last_cons_default. right. apply IH.
Qed.

End SnapshotWindow.

(** X11. Whatever requests are served before the data lock is taken,
    before the time stamp, before the copy of the position, and anywhere
    after the copy of the trigger count, a sample whose three copies run
    with no request served between them holds the motion state of one
    instant: the state in which the first copy ran, which is one of the
    interrupt boundaries of the run. *)
Theorem uninterrupted_copies_are_consistent
    (hw : loop_inputs) (s0 s1 s2 : list irq) (rest : schedule)
    (fw : firmware) :
  motion_in_sample
    (current_data
       (run_preempted hw (s0 :: s1 :: s2 :: [] :: [] :: rest)
                      sampling_branch fw)) =
    motion_at (state_at_copy hw s0 s1 s2 fw) /\
  In (motion_at (state_at_copy hw s0 s1 s2 fw))
     (boundaries hw (s0 :: s1 :: s2 :: [] :: [] :: rest) sampling_branch fw).
Proof.
  unfold state_at_copy, boundaries, sampling_branch.
  rewrite !run_preempted_cons, !boundaries_from_cons.
  change (run_preempted hw [] [] ?x) with x.
  cbn [serve_all boundaries_of app].
  split.
  - rewrite run_preempted_keeps_sample by reflexivity.
    generalize (serve_all s2
                  (exec_stmt hw StampTime
                     (serve_all s1 (exec_stmt hw LockData (serve_all s0 fw)))))
      as fwA.
    reflexivity.
  - rewrite motion_at_serve_all, exec_stmt_motion_at.
    rewrite motion_at_serve_all, exec_stmt_motion_at.
    rewrite motion_at_serve_all.
    change (motion_at fw :: ?l) with ([motion_at fw] ++ l).
    rewrite !app_assoc. apply in_or_app. left.
    do 3 apply In_last_after. now left.
Qed.

(** ** Properties of whole executions *)

(** X1. In every execution from the state left by initialisation, the
    position is the number of phase-A edges sampled with matching levels
    minus the number sampled with differing levels, and the pulse counter
    is the number of phase-A edges, each reduced to its 32-bit type;
    requests on other pins and passes of the loop body do not move them. *)
Theorem position_is_net_motion (now : Z) (acts : list activity) :
  position (encoder_state (execute acts (booted now))) =
    s32 (net_motion (interrupts_of acts)) /\
  pulse_count (encoder_state (execute acts (booted now))) =
    u32 (Z.of_nat (phase_a_count (interrupts_of acts))).
Proof.
  destruct (execute_accumulates acts (booted now)) as [Hpos Hpc].
  - cbn. unfold in_s32. lia.
  - cbn. unfold in_u32. lia.
  - rewrite Hpos, Hpc. cbn [booted encoder_init with_encoder encoder_state
                              position pulse_count].
    split; reflexivity.
Qed.

(** X5. In every execution from the state left by initialisation, the
    trigger counter read by the sampling loop is the number of pulses
    raised on the camera pin, modulo 2^32, and the pin is never left
    high. *)
Theorem trigger_count_counts_pulses (now : Z) (acts : list activity) :
  camera_trigger_count (execute acts (booted now)) =
    u32 (Z.of_nat (trigger_pulses (trace (execute acts (booted now))))) /\
  pin_level CAMERA_TRIGGER_PIN (trace (execute acts (booted now)))
    <> Some true.
Proof.
  apply execute_counts_pulses.
  - reflexivity.
  - cbn. discriminate.
Qed.

(** X6. In every execution from the state left by initialisation,
    [index_detected] is set exactly when a request from the index pin has
    been served: nothing that runs afterwards clears it. *)
Theorem index_flag_is_sticky (now : Z) (acts : list activity) :
  index_detected (encoder_state (execute acts (booted now))) =
  index_requested (interrupts_of acts).
Proof. rewrite execute_index. reflexivity. Qed.

(** X8. In every execution from the state left by initialisation, every
    write to the serial port (telemetry line or diagnostic message) is
    made with the serial lock held, and no lock is held between handler
    invocations and loop passes. *)
Theorem serial_writes_are_guarded (now : Z) (acts : list activity) :
  locks_after no_locks (trace (execute acts (booted now))) = no_locks /\
  Forall serial_guarded
         (transfers_with_locks no_locks (trace (execute acts (booted now)))).
Proof.
  apply execute_keeps_locks.
  - reflexivity.
  - constructor.
Qed.

(** X9. In every execution from the state left by initialisation whose
    loop passes read a clock that is never negative and never goes back,
    the telemetry lines written to the serial port carry time stamps at
    least 1000 microseconds apart, in increasing order, however many
    passes and interrupts there are. *)
Theorem telemetry_stamps_are_spaced (now : Z) (acts : list activity) :
  monotone (0 :: loop_clock acts) ->
  spaced (telemetry_stamps (trace (execute acts (booted now)))).
Proof.
  intros Hclock. apply execute_keeps_spacing.
  - constructor.
  - constructor.
  - exact Hclock.
Qed.

Lemma telemetry_stamps_are_spaced_witness :
  monotone (0 :: loop_clock three_passes) /\
  telemetry_stamps (trace (execute three_passes (booted 0))) = [1000; 2100] /\
  spaced (telemetry_stamps (trace (execute three_passes (booted 0)))).
Proof.
  assert (Hclock : monotone (0 :: loop_clock three_passes)).
  { unfold monotone. cbn. repeat constructor; lia. }
  split; [ exact Hclock | ].
  split; [ vm_compute; reflexivity | ].
  exact (telemetry_stamps_are_spaced 0 three_passes Hclock).
Defined.

(** ** The telemetry record of a pass *)

Section RecordFacts.

Lemma loop_body_current_data hw fw :
  sample_due hw fw = true ->
  current_data (loop_body hw fw) = current_data (sampled hw fw).
Proof.
  intros Hdue. unfold loop_body. rewrite Hdue, sampling_branch_sampled.
  generalize (sampled hw fw) as fws. intros fws.
  destruct (1000000 <=? _); destruct (_ mod _ =? 0);
    unfold system_health_check; try destruct (negb _); reflexivity.
Qed.

Lemma loop_body_record hw fw :
  sample_due hw fw = true ->
  exists rest,
    trace (loop_body hw fw) =
    trace fw ++
    sampling_events
      (TelemetryJson (chainage_arg (current_data (sampled hw fw)))
                     (loop_time hw)
                     (value_arg (current_data (sampled hw fw)))) ++ rest.
Proof.
  intros Hdue. unfold loop_body. rewrite Hdue.
  generalize (sampling_branch_stamped hw fw).
  generalize (chainage_arg (current_data (sampled hw fw))) as c.
  generalize (value_arg (current_data (sampled hw fw))) as v.
  generalize (run_stmts hw sampling_branch fw) as fw1.
  intros fw1 v c Htr.
  destruct (1000000 <=? _); destruct (_ mod _ =? 0);
    unfold system_health_check, status_led_toggle;
    try destruct (negb (_ =? _));
    cbn [trace emit set_last_status_update set_led_state];
    rewrite Htr; repeat rewrite <- app_assoc; eexists; reflexivity.
Qed.

End RecordFacts.

(** X10. A pass of the loop body in which a sample is due, run without
    preemption, writes one telemetry line built from the sample it leaves
    in [current_data]: its time stamp is the clock reading taken at the top
    of the pass, its position, velocity and trigger count are those of the
    motion state the pass started in, and its accelerations are the three
    big-endian words at offsets 0, 2 and 4 of the bus read, scaled. *)
Theorem pass_record_reflects_its_inputs (hw : loop_inputs) (fw : firmware) :
  sample_due hw fw = true ->
  let d := current_data (loop_body hw fw) in
  (exists rest,
     events_since fw (loop_body hw fw) =
     sampling_events
       (TelemetryJson (chainage_arg d) (loop_time hw) (value_arg d)) ++ rest) /\
  timestamp_us d = loop_time hw /\
  motion_in_sample d = motion_at fw /\
  accel_x d = accel_of_raw (raw16 (imu_buffer hw) 0) /\
  accel_y d = accel_of_raw (raw16 (imu_buffer hw) 2) /\
  accel_z d = accel_of_raw (raw16 (imu_buffer hw) 4).
Proof.
  intros Hdue d. subst d. rewrite (loop_body_current_data hw fw Hdue).
  split; [ | repeat split ].
  destruct (loop_body_record hw fw Hdue) as [rest Htr].
  exists rest. apply events_since_app. exact Htr.
Qed.

Lemma pass_record_reflects_its_inputs_witness :
  sample_due (quiet_imu 399990) before_hundredth = true /\
  motion_in_sample
    (current_data (loop_body (quiet_imu 399990) before_hundredth)) =
    (99, 3, 0).
Proof.
  split; [ reflexivity | ].
  destruct (pass_record_reflects_its_inputs (quiet_imu 399990)
              before_hundredth eq_refl) as (_ & _ & Hm & _).
  rewrite Hm. vm_compute. reflexivity.
Defined.

(** ** More on the velocity estimator *)

(** X2. When the estimator makes an estimate and the position has moved
    forward by at most 2147 pulses since the previous one, the velocity it
    stores is the integer quotient of the displacement times 1000000 by
    the elapsed microseconds, and lies between 0 and 100 pulses per second
    per pulse of displacement. *)
Theorem forward_velocity_is_quotient (now : Z) (fw : firmware) :
  rate_limit_elapsed now fw = true ->
  0 <= position (encoder_state fw) - last_position fw <= 2147 ->
  velocity (encoder_state (update_encoder_velocity now fw)) =
    (position (encoder_state fw) - last_position fw) * 1000000
    / time_diff now fw /\
  0 <= velocity (encoder_state (update_encoder_velocity now fw))
    <= 100 * (position (encoder_state fw) - last_position fw).
Proof.
  intros Hopen Hfwd.
  assert (Hbig : 10000 <= time_diff now fw).
  { unfold rate_limit_elapsed in Hopen. unfold time_diff.
    apply Z.leb_le. exact Hopen. }
  assert (Hguard : (0 <? time_diff now fw) = true) by (apply Z.ltb_lt; lia).
  assert (Hv : velocity (encoder_state (update_encoder_velocity now fw)) =
               (position (encoder_state fw) - last_position fw) * 1000000
               / time_diff now fw).
  { unfold update_encoder_velocity. rewrite Hopen, Hguard.
    cbn [velocity encoder_state set_velocity_statics with_encoder set_velocity].
    unfold position_diff. rewrite s32_small by (unfold in_s32; lia).
    apply velocity_expr_forward; lia. }
  split; [ exact Hv | ]. rewrite Hv.
  set (d := position (encoder_state fw) - last_position fw) in *.
  split.
  - apply Z.div_pos; lia.
  - apply Z.div_le_upper_bound; [ lia | ]. nia.
Qed.

Lemma forward_velocity_is_quotient_witness :
  rate_limit_elapsed 400001 before_hundredth = true /\
  0 <= position (encoder_state before_hundredth)
       - last_position before_hundredth <= 2147 /\
  velocity (encoder_state (update_encoder_velocity 400001 before_hundredth))
    = 980.
Proof.
  assert (Hfwd : 0 <= position (encoder_state before_hundredth)
                      - last_position before_hundredth <= 2147)
    by (vm_compute; split; discriminate).
  split; [ reflexivity | ]. split; [ exact Hfwd | ].
  destruct (forward_velocity_is_quotient 400001 before_hundredth eq_refl Hfwd)
    as [Hv _].
  rewrite Hv. vm_compute. reflexivity.
Defined.

Section EstimateMarks.

Lemma edge_a_last_position events hw fw :
  last_position (serve (edge_a events hw) fw) =
  if rate_limit_elapsed (vel_time hw) fw
  then position (encoder_state (serve (edge_a events hw) fw))
  else last_position fw.
Proof.
  unfold serve, edge_a, encoder_irq_handler, update_encoder_velocity,
    rate_limit_elapsed, time_diff; cbn.
  destruct (Bool.eqb (level_a hw) (level_b hw)); cbn;
    destruct (_ mod _ =? 0); cbn;
    destruct (10000 <=? _); cbn; try reflexivity;
    destruct (0 <? _); reflexivity.
Qed.

(** An edge that passes both tests of the estimator leaves its marks. *)
Lemma edge_a_stores events hw fw :
  rate_limit_elapsed (vel_time hw) fw = true ->
  (0 <? time_diff (vel_time hw) fw) = true ->
  stores_estimate (edge_a events hw) fw = true.
Proof.
  intros Hopen Hguard. unfold stores_estimate.
  cbn [irq_hw edge_a].
  change (mk_irq ENCODER_A_PIN events hw) with (edge_a events hw).
  rewrite edge_a_last_velocity_update, edge_a_last_position, Hopen.
  rewrite estimates_sound, estimates_edge_a, Hopen, Hguard.
  rewrite edge_a_position. cbn [andb].
  unfold time_diff. now rewrite !Z.eqb_refl.
Qed.

End EstimateMarks.

(** X3. Over a run of phase-A edges whose estimator clock readings fit the
    64-bit clock and are each at least 10 ms after the previous one (the
    first at least 10 ms after the last estimate), every edge makes an
    estimate: it passes both tests of the estimator, and the state it
    leaves holds its clock reading in [last_velocity_update], its position
    in [last_position] and the quotient of the source expression in
    [velocity]. *)
Theorem sparse_edges_all_estimate
    (es : list (Z * irq_inputs)) (fw : firmware) :
  in_u64 (last_velocity_update fw) ->
  Forall in_u64 (estimator_clock es) ->
  sparse (last_velocity_update fw :: estimator_clock es) ->
  velocity_updates (phase_a_edges es) fw = length es /\
  estimates_stored (phase_a_edges es) fw = length es.
Proof.
  revert fw. induction es as [ | [ev hw] es IH]; intros fw Hlast Hfit Hsp;
    [ split; reflexivity | ].
  unfold sparse, phase_a_edges, estimator_clock in *.
  cbn [map fst snd velocity_updates estimates_stored length] in *.
  inversion Hfit as [ | t ts Ht Hts]; subst.
  inversion Hsp as [ | t ts Hrest Hgap]; subst.
  inversion Hgap as [ | t ts Hfirst _]; subst.
  assert (Hdiff : time_diff (vel_time hw) fw =
                  vel_time hw - last_velocity_update fw).
  { unfold time_diff. apply u64_gap. unfold in_u64 in *. lia. }
  assert (Hopen : rate_limit_elapsed (vel_time hw) fw = true).
  { unfold rate_limit_elapsed. fold (time_diff (vel_time hw) fw).
    rewrite Hdiff. apply Z.leb_le. lia. }
  assert (Hguard : (0 <? time_diff (vel_time hw) fw) = true).
  { rewrite Hdiff. apply Z.ltb_lt. lia. }
  rewrite estimates_edge_a, Hopen, Hguard.
  rewrite (edge_a_stores ev hw fw Hopen Hguard).
  cbn [andb Nat.add].
  destruct (IH (serve (edge_a ev hw) fw)) as [Hcount Hstored];
    rewrite ?edge_a_last_velocity_update, ?Hopen; try assumption.
  split; f_equal; assumption.
Qed.

Lemma sparse_edges_all_estimate_witness :
  let es := [(GPIO_IRQ_EDGE_RISE, mk_irq_inputs 300000 true true 300001);
             (GPIO_IRQ_EDGE_FALL, mk_irq_inputs 310000 false false 310001);
             (GPIO_IRQ_EDGE_RISE, mk_irq_inputs 325000 true true 325001)] in
  in_u64 (last_velocity_update (booted 250000)) /\
  Forall in_u64 (estimator_clock es) /\
  sparse (last_velocity_update (booted 250000) :: estimator_clock es) /\
  velocity_updates (phase_a_edges es) (booted 250000) = 3%nat /\
  estimates_stored (phase_a_edges es) (booted 250000) = 3%nat.
Proof.
  intros es.
  assert (H1 : in_u64 (last_velocity_update (booted 250000)))
    by (cbn; unfold in_u64; lia).
  assert (H2 : Forall in_u64 (estimator_clock es))
    by (cbn; unfold in_u64; repeat constructor; lia).
  assert (H3 : sparse (last_velocity_update (booted 250000)
                       :: estimator_clock es))
    by (unfold sparse; cbn; repeat constructor; lia).
  split; [ exact H1 | ]. split; [ exact H2 | ]. split; [ exact H3 | ].
  exact (sparse_edges_all_estimate es (booted 250000) H1 H2 H3).
Defined.

(** ** The pulse counter at its limit *)

Section WrapFacts.

Lemma edges_pulse_count es : forall fw,
  in_u32 (pulse_count (encoder_state fw)) ->
  pulse_count (encoder_state (serve_all (phase_a_edges es) fw)) =
  u32 (pulse_count (encoder_state fw) + Z.of_nat (length es)).
Proof.
  induction es as [ | [ev hw] es IH]; intros fw Hpc.
  - cbn. rewrite Z.add_0_r. now rewrite u32_small.
  - unfold phase_a_edges. cbn [map serve_all fst snd length].
    fold (phase_a_edges es).
    rewrite IH by (rewrite edge_a_pulse_count; apply u32_range).
    rewrite edge_a_pulse_count, u32_u32_add. f_equal. lia.
Qed.

End WrapFacts.

(** X4. The trigger cadence is broken where the pulse counter wraps: from
    a pulse count of 2^32 - 96, itself a multiple of 100, the next trigger
    fires during the 96th edge, as the counter returns to zero, and not
    before. *)
Theorem trigger_fires_at_counter_wrap
    (es : list (Z * irq_inputs)) (fw : firmware) :
  pulse_count (encoder_state fw) = 2 ^ 32 - 96 ->
  length es = 96%nat ->
  (2 ^ 32 - 96) mod ENCODER_TRIGGER_INTERVAL = 0 /\
  firing_edges 1 (phase_a_edges es) fw = [96%nat] /\
  pulse_count (encoder_state (serve_all (phase_a_edges es) fw)) = 0.
Proof.
  intros Hpc Hlen. split; [ reflexivity | ]. split.
  - rewrite firing_edges_cadence, Hlen, Hpc. vm_compute. reflexivity.
  - rewrite edges_pulse_count by (rewrite Hpc; unfold in_u32; lia).
    rewrite Hlen, Hpc. reflexivity.
Qed.

Lemma trigger_fires_at_counter_wrap_witness :
  let fw := with_encoder (set_pulse_count (2 ^ 32 - 96)) (booted 250000) in
  let es := repeat (GPIO_IRQ_EDGE_RISE, mk_irq_inputs 300000 true true 300001)
                   96 in
  pulse_count (encoder_state fw) = 2 ^ 32 - 96 /\
  length es = 96%nat /\
  firing_edges 1 (phase_a_edges es) fw = [96%nat].
Proof.
  intros fw es.
  split; [ reflexivity | ]. split; [ reflexivity | ].
  exact (proj1 (proj2 (trigger_fires_at_counter_wrap es fw eq_refl eq_refl))).
Defined.

(** ** The inertial-sensor words *)

Section SensorWords.

Lemma lor_shiftl_8 hi lo :
  0 <= lo < 2 ^ 8 -> Z.lor (Z.shiftl hi 8) lo = hi * 2 ^ 8 + lo.
Proof.
  intros Hlo. rewrite Z.shiftl_mul_pow2 by lia.
  assert (Hdisjoint : Z.land (hi * 2 ^ 8) lo = 0).
  { apply Z.bits_inj'. intros n Hn.
    rewrite Z.land_spec, Z.bits_0.
    destruct (Z.ltb_spec n 8) as [Hlow | Hhigh].
    - now rewrite Z.mul_pow2_bits_low.
    - rewrite <- (Z.mod_small lo (2 ^ 8)) by lia.
      rewrite Z.mod_pow2_bits_high by lia. apply andb_false_r. }
  rewrite <- Z.lxor_lor by exact Hdisjoint.
  symmetry. apply Z.add_nocarry_lxor. exact Hdisjoint.
Qed.

Lemma raw16_in_range buffer i : in_s16 (raw16 buffer i).
Proof.
  unfold in_s16, raw16, s16.
  match goal with
  | |- context [?x mod 2 ^ 16] => pose proof (Z.mod_pos_bound x (2 ^ 16))
  end.
  lia.
Qed.

Lemma in_zrange n : forall start z,
  start <= z < start + Z.of_nat n -> In z (zrange n start).
Proof.
  induction n as [ | n IH]; intros start z Hz; [ lia | ].
  cbn [zrange]. destruct (Z.eq_dec start z) as [-> | Hne]; [ now left | ].
  right. apply IH. lia.
Qed.

Lemma in_all_s16 raw : in_s16 raw -> In raw all_s16.
Proof.
  unfold in_s16, all_s16. intros Hr. apply in_zrange. lia.
Qed.

Lemma accel_exact_all : forallb accel_exact_b all_s16 = true.
Proof. vm_compute. reflexivity. Qed.

End SensorWords.

(** X12. The word [imu_read_data] reads at an offset of the bus buffer is
    the 16-bit two's complement value whose big-endian bytes stand there:
    decoding the two bytes of any value between -32768 and 32767 gives the
    value back, whatever surrounds them. *)
Theorem raw16_decodes_big_endian (pre post : list Z) (v : Z) :
  in_s16 v ->
  raw16 (pre ++ be16 v ++ post) (length pre) = v.
Proof.
  intros Hv. unfold raw16, be16. cbn [app].
  rewrite app_nth2 by lia. rewrite Nat.sub_diag. cbn [nth].
  rewrite app_nth2 by lia.
  replace (S (length pre) - length pre)%nat with 1%nat by lia. cbn [nth].
  rewrite lor_shiftl_8 by (apply Z.mod_pos_bound; lia).
  assert (Hjoin : v mod 2 ^ 16 / 2 ^ 8 * 2 ^ 8 + v mod 2 ^ 8 = v mod 2 ^ 16).
  { replace (v mod 2 ^ 8) with ((v mod 2 ^ 16) mod 2 ^ 8).
    - pose proof (Z.div_mod (v mod 2 ^ 16) (2 ^ 8)). lia.
    - change (2 ^ 16) with (2 ^ 8 * 2 ^ 8).
      rewrite Z.rem_mul_r by lia.
      rewrite Z.mul_comm, Z.mod_add by lia. apply Z.mod_mod. lia. }
  rewrite Hjoin. unfold s16, in_s16 in *.
  rewrite Zplus_mod_idemp_l. rewrite Z.mod_small; lia.
Qed.

Lemma raw16_decodes_big_endian_witness :
  in_s16 (-2) /\ be16 (-2) = [255; 254] /\
  raw16 ([0; 0] ++ be16 (-2) ++ [0]) 2 = -2.
Proof.
  assert (Hv : in_s16 (-2)) by (unfold in_s16; lia).
  split; [ exact Hv | ]. split; [ reflexivity | ].
  exact (raw16_decodes_big_endian [0; 0] [0] (-2) Hv).
Defined.

(** X13. The accelerations [imu_read_data] stores are exact: each is the
    raw 16-bit word divided by 2048 with no rounding, so it is a multiple
    of 1/2048 between -16 and 16 (excluded). *)
Theorem accelerations_are_exact (buffer : list Z) (fw : firmware) :
  let d := current_data (imu_read_data buffer fw) in
  scaled 11 (accel_x d) = Some (raw16 buffer 0) /\
  scaled 11 (accel_y d) = Some (raw16 buffer 2) /\
  scaled 11 (accel_z d) = Some (raw16 buffer 4) /\
  in_s16 (raw16 buffer 0) /\ in_s16 (raw16 buffer 2) /\
  in_s16 (raw16 buffer 4).
Proof.
  assert (Hexact : forall raw, in_s16 raw ->
                     scaled 11 (accel_of_raw raw) = Some raw).
  { intros raw Hr.
    pose proof (proj1 (forallb_forall accel_exact_b all_s16)
                  accel_exact_all raw (in_all_s16 raw Hr)) as Hb.
    unfold accel_exact_b in Hb.
    destruct (scaled 11 (accel_of_raw raw)) as [v | ]; [ | discriminate Hb ].
    apply Z.eqb_eq in Hb. now subst. }
  intros d. subst d.
  change (accel_x (current_data (imu_read_data buffer fw)))
    with (accel_of_raw (raw16 buffer 0)).
  change (accel_y (current_data (imu_read_data buffer fw)))
    with (accel_of_raw (raw16 buffer 2)).
  change (accel_z (current_data (imu_read_data buffer fw)))
    with (accel_of_raw (raw16 buffer 4)).
  repeat split; try apply Hexact; apply raw16_in_range.
Qed.

(** ** The health check *)

(** X15. After a pass of the loop body the fault LED shows the outcome of
    the health check if the pass made one (its clock reading is a multiple
    of 10 s): lit when the identity byte differs from 0x71, dark when it
    matches; a pass that makes no check leaves the LED as it was. *)
Theorem fault_led_follows_health_check (hw : loop_inputs) (fw : firmware) :
  pin_level ERROR_LED_PIN (trace (loop_body hw fw)) =
  if loop_time hw mod 10000000 =? 0
  then Some (negb (who_am_i hw =? 0x71))
  else pin_level ERROR_LED_PIN (trace fw).
Proof.
  unfold loop_body.
  destruct (sample_due hw fw).
  - generalize (sampling_branch_stamped hw fw).
    generalize (chainage_arg (current_data (sampled hw fw))) as c.
    generalize (value_arg (current_data (sampled hw fw))) as v.
    generalize (run_stmts hw sampling_branch fw) as fw1.
    intros fw1 v c Htr.
    destruct (1000000 <=? _); destruct (_ mod _ =? 0);
      unfold system_health_check, status_led_toggle;
      try destruct (negb (_ =? _));
      cbn [trace emit set_last_status_update set_led_state led_state];
      rewrite Htr; repeat rewrite <- app_assoc;
      rewrite pin_level_app; cbn; try reflexivity;
      destruct (negb (led_state fw1)); reflexivity.
  - destruct (1000000 <=? _); destruct (_ mod _ =? 0);
      unfold system_health_check, status_led_toggle;
      try destruct (negb (_ =? _));
      cbn [trace emit set_last_status_update set_led_state led_state];
      repeat rewrite <- app_assoc;
      rewrite pin_level_app; cbn; try reflexivity;
      destruct (negb (led_state fw)); reflexivity.
Qed.

(** ** The status LED *)

Section StatusLed.

Lemma pin_writes_app pin tr1 tr2 :
  pin_writes pin (tr1 ++ tr2) = pin_writes pin tr1 ++ pin_writes pin tr2.
Proof.
  induction tr1 as [ | e tr1 IH]; [ reflexivity | ].
  destruct e as [ | | p level | | | | ]; cbn [app pin_writes]; try exact IH.
  now rewrite IH, app_assoc.
Qed.

Lemma alternating_snoc n : forall b,
  alternating b (S n) =
  alternating b n ++ [if Nat.even n then b else negb b].
Proof.
  induction n as [ | n IH]; intros b; [ reflexivity | ].
  change (alternating b (S (S n))) with (b :: alternating (negb b) (S n)).
  rewrite IH. cbn [alternating app]. do 2 f_equal.
  rewrite Nat.even_succ, <- Nat.negb_even.
  destruct (Nat.even n); cbn; now rewrite ?negb_involutive.
Qed.

(** A pass either leaves the status LED alone or inverts it once. *)
Lemma loop_body_status_led hw fw :
  exists evs,
    trace (loop_body hw fw) = trace fw ++ evs /\
    ((pin_writes STATUS_LED_PIN evs = [] /\
      led_state (loop_body hw fw) = led_state fw) \/
     (pin_writes STATUS_LED_PIN evs = [negb (led_state fw)] /\
      led_state (loop_body hw fw) = negb (led_state fw))).
Proof.
  unfold loop_body.
  destruct (sample_due hw fw).
  - assert (Hled : led_state (run_stmts hw sampling_branch fw) = led_state fw)
      by reflexivity.
    revert Hled. generalize (sampling_branch_stamped hw fw).
    generalize (chainage_arg (current_data (sampled hw fw))) as c.
    generalize (value_arg (current_data (sampled hw fw))) as v.
    generalize (run_stmts hw sampling_branch fw) as fw1.
    intros fw1 v c Htr Hled.
    destruct (1000000 <=? _); destruct (_ mod _ =? 0);
      unfold system_health_check, status_led_toggle;
      try destruct (negb (_ =? _));
      cbn [trace emit set_last_status_update set_led_state led_state];
      rewrite Htr, Hled; repeat rewrite <- app_assoc;
      eexists; (split; [ reflexivity | ]);
      rewrite !pin_writes_app; cbn; auto.
  - destruct (1000000 <=? _); destruct (_ mod _ =? 0);
      unfold system_health_check, status_led_toggle;
      try destruct (negb (_ =? _));
      cbn [trace emit set_last_status_update set_led_state led_state];
      repeat rewrite <- app_assoc;
      eexists; (split; [ reflexivity | ]);
      cbn; auto.
Qed.

Lemma execute_alternates acts : forall fw,
  pin_writes STATUS_LED_PIN (trace fw) =
    alternating true (length (pin_writes STATUS_LED_PIN (trace fw))) ->
  led_state fw = Nat.odd (length (pin_writes STATUS_LED_PIN (trace fw))) ->
  pin_writes STATUS_LED_PIN (trace (execute acts fw)) =
    alternating true
      (length (pin_writes STATUS_LED_PIN (trace (execute acts fw)))) /\
  led_state (execute acts fw) =
    Nat.odd (length (pin_writes STATUS_LED_PIN (trace (execute acts fw)))).
Proof.
  induction acts as [ | [q | hw] acts IH]; intros fw Halt Hled.
  - split; assumption.
  - cbn [execute perform].
    assert (Hsame : pin_writes STATUS_LED_PIN (trace (serve q fw)) =
                    pin_writes STATUS_LED_PIN (trace fw)).
    { destruct (serve_events q fw) as [-> | ->]; [ reflexivity | ].
      rewrite pin_writes_app. cbn. apply app_nil_r. }
    apply IH; rewrite Hsame; [ exact Halt | ].
    now destruct (serve_main_frame q fw) as (_ & _ & _ & -> & _).
  - cbn [execute perform].
    destruct (loop_body_status_led hw fw)
      as (evs & Htr & [[Hw Hl] | [Hw Hl]]);
      apply IH; rewrite Htr, pin_writes_app, Hw, ?Hl.
    + now rewrite app_nil_r.
    + now rewrite app_nil_r.
    + rewrite length_app. cbn [length]. rewrite Nat.add_1_r.
      set (n := length (pin_writes STATUS_LED_PIN (trace fw))) in *.
      rewrite alternating_snoc, <- Halt. f_equal.
      rewrite Hled, <- Nat.negb_even. now destruct (Nat.even n).
    + rewrite length_app. cbn [length]. rewrite Nat.add_1_r.
      now rewrite Nat.odd_succ, <- Nat.negb_odd, Hled.
Qed.

End StatusLed.

(** X14. In every execution from the state left by initialisation, the
    levels written to the status LED alternate, starting with high, and
    [led_state] is the level last written (low before the first write):
    neither interrupts nor the other parts of the loop disturb the
    heartbeat. *)
Theorem status_led_alternates (now : Z) (acts : list activity) :
  pin_writes STATUS_LED_PIN (trace (execute acts (booted now))) =
    alternating true
      (length (pin_writes STATUS_LED_PIN (trace (execute acts (booted now)))))
  /\
  led_state (execute acts (booted now)) =
    Nat.odd
      (length (pin_writes STATUS_LED_PIN (trace (execute acts (booted now))))).
Proof. apply execute_alternates; reflexivity. Qed.

(** ** The health check is advisory *)

Section Advisory.

Lemma run_stmts_ignores_identity t buf who who' sts : forall fw,
  run_stmts (mk_loop_inputs t buf who) sts fw =
  run_stmts (mk_loop_inputs t buf who') sts fw.
Proof.
  induction sts as [ | st sts IH]; intros fw; [ reflexivity | ].
  cbn [run_stmts]. rewrite IH. reflexivity.
Qed.

End Advisory.

Section Lines.

Lemma telemetry_lines_app tr1 tr2 :
  telemetry_lines (tr1 ++ tr2) = telemetry_lines tr1 ++ telemetry_lines tr2.
Proof.
  induction tr1 as [ | e tr1 IH]; [ reflexivity | ].
  destruct e as [ | | | | | | [ | c ts v]]; cbn; now rewrite IH.
Qed.

End Lines.

(** X16. The outcome of the health check is advisory: whatever identity
    byte a pass of the loop body reads, it leaves the same encoder state,
    sample, trigger count, timers and LED state, and hands the serial port
    the same telemetry lines, argument for argument. *)
Theorem health_outcome_is_advisory
    (t : Z) (buf : list Z) (who who' : Z) (fw : firmware) :
  let a := loop_body (mk_loop_inputs t buf who) fw in
  let b := loop_body (mk_loop_inputs t buf who') fw in
  encoder_state a = encoder_state b /\
  current_data a = current_data b /\
  camera_trigger_count a = camera_trigger_count b /\
  last_imu_read a = last_imu_read b /\
  last_status_update a = last_status_update b /\
  led_state a = led_state b /\
  telemetry_stamps (trace a) = telemetry_stamps (trace b) /\
  telemetry_lines (trace a) = telemetry_lines (trace b).
Proof.
  intros a b. subst a b. unfold loop_body.
  cbn [loop_time who_am_i].
  change (sample_due (mk_loop_inputs t buf who') fw)
    with (sample_due (mk_loop_inputs t buf who) fw).
  rewrite (run_stmts_ignores_identity t buf who' who).
  generalize (if sample_due (mk_loop_inputs t buf who) fw
              then run_stmts (mk_loop_inputs t buf who) sampling_branch fw
              else fw) as fw1.
  intros fw1.
  destruct (1000000 <=? _); destruct (_ mod _ =? 0);
    unfold system_health_check;
    destruct (negb (who =? 113)); destruct (negb (who' =? 113));
    cbn [encoder_state current_data camera_trigger_count last_imu_read
         last_status_update led_state trace emit];
    repeat split;
    repeat rewrite telemetry_stamps_app;
    repeat rewrite telemetry_lines_app;
    cbn [telemetry_stamps telemetry_lines app];
    rewrite ?app_nil_r; reflexivity.
Qed.

(** ** The precision of the chainage *)

Section ChainagePrecision.

Lemma chainage_close_near : forallb chainage_close_b near_positions = true.
Proof. vm_compute. reflexivity. Qed.

End ChainagePrecision.

(** X17. For every position within 100000 pulses of the origin, the
    chainage handed to the formatter is a finite number less than 0.005
    away from a tenth of the position: written as a fraction [n / d] with
    [d > 0], it satisfies [|200 n - 20 position d| < d]. *)
Theorem chainage_within_half_a_centimetre (pos : Z) :
  - 100000 <= pos <= 100000 ->
  exists n d,
    as_fraction (chainage_arg (sample_at pos)) = Some (n, d) /\
    0 < d /\
    Z.abs (200 * n - 20 * pos * d) < d.
Proof.
  intros Hpos.
  assert (Hin : In pos near_positions).
  { unfold near_positions. apply in_zrange. lia. }
  pose proof (proj1 (forallb_forall chainage_close_b near_positions)
                chainage_close_near pos Hin) as Hb.
  unfold chainage_close_b in Hb.
  destruct (as_fraction (chainage_arg (sample_at pos))) as [[n d] | ];
    [ | discriminate Hb ].
  apply andb_true_iff in Hb as [Hd Hclose].
  exists n, d. split; [ reflexivity | ].
  split; [ now apply Z.ltb_lt | now apply Z.ltb_lt ].
Qed.

Lemma chainage_within_half_a_centimetre_witness :
  - 100000 <= 123 <= 100000 /\
  as_fraction (chainage_arg (sample_at 123)) =
    Some (6924284534456320, 562949953421312) /\
  Z.abs (200 * 6924284534456320 - 20 * 123 * 562949953421312)
    < 562949953421312.
Proof.
  assert (Hpos : - 100000 <= 123 <= 100000) by lia.
  split; [ exact Hpos | ].
  destruct (chainage_within_half_a_centimetre 123 Hpos)
    as (n & d & Hf & _ & Hclose).
  assert (Hv : as_fraction (chainage_arg (sample_at 123)) =
               Some (6924284534456320, 562949953421312))
    by (vm_compute; reflexivity).
  split; [ exact Hv | ].
  rewrite Hv in Hf. injection Hf as <- <-. exact Hclose.
Defined.

(** ** The digits of a telemetry line *)

Section LineFacts.





End LineFacts.



